(** * The price-table renderer of [hack/code/prices_gen.go]

    A shallow embedding of [writePricing] and [newline], the two functions
    that turn a list of instance-type names and a price lookup into the text
    of a Go map literal, followed by the properties of the rendered text.

    Go strings are byte sequences: they are modelled by [string], whose
    characters are the 256 byte values.  Prices are IEEE binary64 values,
    modelled by the primitive [float] type. *)

From Stdlib Require Import ZArith Lia Ascii DecimalString.
From Stdlib Require Import PrimFloat FloatOps SpecFloat.
From stdpp Require Import base list sorting strings.

Local Open Scope Z_scope.

(* Decimal price literals denote the nearest binary64 value, as in Go. *)
Set Warnings "-inexact-float".

(** ** Bytes and strings *)

Definition LF : ascii := "010"%char.
Definition DQUOTE : ascii := "034"%char.
Definition DOT : ascii := "."%char.

(** The one-byte string. *)
Definition str (c : ascii) : string := String c "".

(** [len(s)], an [int] in Go. *)
Definition len (s : string) : Z := Z.of_nat (String.length s).

(** ** The [%f] verb of package [fmt] on a [float64]

    [fmt] prints a [float64] under [%f] as [strconv.FormatFloat(v, 'f', 6, 64)]:
    the exact binary value rounded to six decimals, ties to even, an optional
    minus sign, and the words [NaN], [+Inf] and [-Inf] for the special values. *)

Definition decimal (n : Z) : string := NilZero.string_of_uint (N.to_uint (Z.to_N n)).

Fixpoint zeros (n : nat) : string :=
  match n with
  | O => ""
  | S k => String "0" (zeros k)
  end.

Definition pad_left (width : nat) (s : string) : string :=
  zeros (width - String.length s) +:+ s.

(** [m * 2^e * 10^6] rounded to the nearest integer, ties to even. *)
Definition scaled_micro (m : positive) (e : Z) : Z :=
  let num := Z.pos m * 1000000 in
  if 0 <=? e then num * 2 ^ e
  else
    let den := 2 ^ (- e) in
    let q := num / den in
    let r := num mod den in
    if (den <? 2 * r) || ((den =? 2 * r) && Z.odd q) then q + 1 else q.

Definition fixed6 (micro : Z) : string :=
  decimal (micro / 1000000) +:+ "." +:+ pad_left 6 (decimal (micro mod 1000000)).

Definition sign_text (negative : bool) : string := if negative then "-" else "".

Definition fmt_f (v : float) : string :=
  match Prim2SF v with
  | S754_nan => "NaN"
  | S754_infinity negative => if negative then "-Inf" else "+Inf"
  | S754_zero negative => sign_text negative +:+ fixed6 0
  | S754_finite negative m e => sign_text negative +:+ fixed6 (scaled_micro m e)
  end.

(** ** [strings.Split] with a one-byte separator

    A string with [k] occurrences of the separator splits into [k + 1]
    segments; the empty string splits into one empty segment. *)

Fixpoint Split (s : string) (sep : ascii) : list string :=
  match s with
  | EmptyString => [""]
  | String c rest =>
      if Ascii.eqb c sep then "" :: Split rest sep
      else match Split rest sep with
           | seg :: segs => String c seg :: segs
           | [] => [str c]
           end
  end.

(** [strings.Join], as the [%v] verb uses it to print a slice of strings. *)
Fixpoint Join (segs : list string) (sep : string) : string :=
  match segs with
  | [] => ""
  | [seg] => seg
  | seg :: rest => seg +:+ sep +:+ Join rest sep
  end.

(** ** [sort.Strings]

    Go compares strings byte-wise, a proper prefix before its extensions;
    this is [String.le].  The order is total and antisymmetric, so the sorted
    slice is determined by its contents whatever algorithm the library runs
    (see [sort_Strings_unique]). *)

Definition sort_Strings (a : list string) : list string := merge_sort String.le a.

(** ** Results of a call that may end the process

    [log.Fatalf] prints its message and exits with status 1: [Fatal] carries
    the message, [Returns] the value of a call that comes back. *)

Inductive result (A : Type) : Type :=
  | Fatal (msg : string)
  | Returns (a : A).
Arguments Fatal {A} msg.
Arguments Returns {A} a.

(** Go's [error] interface: [None] is [nil]. *)
Definition error : Type := option string.

(** ** [newline]

    The buffer is passed in and handed back together with the text the call
    prints on standard output: on an empty buffer the source calls
    [fmt.Println(src)], which prints the (empty) buffer and a line feed on
    standard output and leaves the buffer as it is. *)

Definition newline (src : string) : string * string :=
  let contents := src in
  if len contents =? 0 then (src, str LF)
  else if bool_decide (String.get (String.length contents - 1) contents = Some LF)
       then (src, "")
       else (src +:+ str LF, "").

(** ** [writePricing] *)

(** The variables of the loop: the buffer, the text printed on standard
    output so far, and the two locals [lineLen] and [previousFamily].
    [lineLen] is an [int]; it never exceeds the length of the buffer (see
    [loop_lineLen_bound]), itself an [int], so its additions do not wrap. *)
Record state : Type := mkState {
  src : string;
  stdout : string;
  lineLen : Z;
  previousFamily : string
}.

(** [fmt.Fprintf(src, `"%s":%f, `, instanceName, price)]: the text written. *)
Definition entry_text (instanceName : string) (price : float) : string :=
  String DQUOTE (instanceName +:+ String DQUOTE (":" +:+ fmt_f price +:+ ", ")).

(** [fmt.Fprintf(src, "// %s family
", family)]: the text written. *)
Definition comment_text (family : string) : string :=
  "// " +:+ family +:+ " family" +:+ str LF.

(** The message of [log.Fatalf("parsing instance family %s, got %v", ...)]. *)
Definition parsing_message (instanceName : string) (segs : list string) : string :=
  "parsing instance family " +:+ instanceName +:+ ", got [" +:+ Join segs " " +:+ "]".

(** One iteration of the [for ... range instanceNames] loop.  Writing to a
    [bytes.Buffer] returns a [nil] error, so the [log.Fatalf] that guards
    the entry's [Fprintf] is never taken and [n] is the entry's length. *)
Definition iteration (getPrice : string -> float * error)
    (st : state) (instanceName : string) : result state :=
  let segs := Split instanceName DOT in
  if negb (length segs =? 2)%nat then Fatal (parsing_message instanceName segs)
  else
    let '(price, err) := getPrice instanceName in
    match err with
    | Some _ => Returns st
    | None =>
        let family := nth 0 segs "" in
        let st :=
          if bool_decide (family <> previousFamily st) then
            let '(buf, printed) := newline (src st) in
            mkState (buf +:+ comment_text family) (stdout st +:+ printed) 0 family
          else st in
        let n := len (entry_text instanceName price) in
        let st := mkState (src st +:+ entry_text instanceName price) (stdout st)
                          (lineLen st + n) (previousFamily st) in
        if 80 <? lineLen st
        then Returns (mkState (src st +:+ str LF) (stdout st) 0 (previousFamily st))
        else Returns st
    end.

Fixpoint loop (getPrice : string -> float * error)
    (st : state) (instanceNames : list string) : result state :=
  match instanceNames with
  | [] => Returns st
  | instanceName :: rest =>
      match iteration getPrice st instanceName with
      | Fatal msg => Fatal msg
      | Returns st' => loop getPrice st' rest
      end
  end.

(** What the caller observes when [writePricing] returns: the buffer, the
    text printed on standard output, and its own slice, which
    [sort.Strings] has sorted in place. *)
Record written : Type := mkWritten {
  buffer : string;
  printed : string;
  names_after : list string
}.

(** [fmt.Fprintf(src, "var %s = map[string]float64{
", varName)]. *)
Definition declaration_line (varName : string) : string :=
  "var " +:+ varName +:+ " = map[string]float64{".

(** [fmt.Fprintln(src, "
}")] followed by [fmt.Fprintln(src)]. *)
Definition closing_text : string := str LF +:+ "}" +:+ str LF +:+ str LF.

Definition writePricing (src0 : string) (instanceNames : list string) (varName : string)
    (getPrice : string -> float * error) : result written :=
  let src1 := src0 +:+ declaration_line varName +:+ str LF in
  let lineLen := 0 in
  let instanceNames := sort_Strings instanceNames in
  let previousFamily := "" in
  match loop getPrice (mkState src1 "" lineLen previousFamily) instanceNames with
  | Fatal msg => Fatal msg
  | Returns st => Returns (mkWritten (src st +:+ closing_text) (stdout st) instanceNames)
  end.

(** ** The layout of the rendered text

    A second description of what the loop writes, as a list of chunks
    computed from the two locals alone; [loop_layout] shows that the loop
    appends exactly the text of these chunks to the buffer. *)

Inductive chunk : Type :=
  | Sep                                     (* the line feed added by [newline] *)
  | Comment (family : string)               (* [// <family> family] and a line feed *)
  | Entry (instanceName : string) (price : float)
  | Break.                                  (* the line feed after a full line *)

Definition chunk_text (c : chunk) : string :=
  match c with
  | Sep => str LF
  | Comment family => comment_text family
  | Entry instanceName price => entry_text instanceName price
  | Break => str LF
  end.

Definition flatten (cs : list chunk) : string :=
  foldr (fun c acc => chunk_text c +:+ acc) "" cs.

Definition well_formed (instanceName : string) : Prop :=
  length (Split instanceName DOT) = 2%nat.

Definition family_of (instanceName : string) : string :=
  nth 0 (Split instanceName DOT) "".

Definition width (instanceName : string) (price : float) : Z :=
  len (entry_text instanceName price).

Fixpoint layout (getPrice : string -> float * error) (lineLen : Z) (previousFamily : string)
    (instanceNames : list string) : list chunk :=
  match instanceNames with
  | [] => []
  | instanceName :: rest =>
      match getPrice instanceName with
      | (_, Some _) => layout getPrice lineLen previousFamily rest
      | (price, None) =>
          let family := family_of instanceName in
          let switch := bool_decide (family <> previousFamily) in
          let heading :=
            if switch then (if lineLen =? 0 then [] else [Sep]) ++ [Comment family] else [] in
          let lineLen := (if switch then 0 else lineLen) + width instanceName price in
          heading ++ Entry instanceName price ::
            (if 80 <? lineLen then Break :: layout getPrice 0 family rest
             else layout getPrice lineLen family rest)
      end
  end.

(** The names and prices of the entries, in the order they are written. *)
Definition entries (cs : list chunk) : list (string * float) :=
  omap (fun c => match c with Entry n p => Some (n, p) | _ => None end) cs.

(** The families of the comment lines, in the order they are written. *)
Definition comments (cs : list chunk) : list string :=
  omap (fun c => match c with Comment f => Some f | _ => None end) cs.

(** The lookup succeeds on a name: the error it returns is [nil]. *)
Definition has_price (getPrice : string -> float * error) (instanceName : string) : Prop :=
  (getPrice instanceName).2 = None.

(** The names with a price, each with its price, in the order of the list. *)
Definition priced_names (getPrice : string -> float * error) (instanceNames : list string)
    : list (string * float) :=
  omap (fun n => match getPrice n with (p, None) => Some (n, p) | _ => None end) instanceNames.

(** The heads of the runs of equal families, the first run counting only
    if it differs from [previous]. *)
Fixpoint runs (previous : string) (families : list string) : list string :=
  match families with
  | [] => []
  | f :: rest => if bool_decide (f <> previous) then f :: runs f rest else runs f rest
  end.

(** The number of dots of a name. *)
Fixpoint dots (s : string) : nat :=
  match s with
  | EmptyString => 0
  | String c rest => if Ascii.eqb c DOT then S (dots rest) else dots rest
  end.


(** ** The last byte of a buffer and the invariant of the loop *)

(** [contents[len(contents)-1]], when there is one. *)
Fixpoint last_byte (s : string) : option ascii :=
  match s with
  | EmptyString => None
  | String c EmptyString => Some c
  | String _ rest => last_byte rest
  end.

(** The buffer ends with a line feed, and the byte before that one, if any,
    is not a line feed. *)
Definition ends_one_LF (s : string) : Prop :=
  exists c, s = c +:+ str LF /\ last_byte c <> Some LF.

(** What holds of the loop variables between iterations: the counter is zero
    exactly when the buffer ends with a line feed, and then with one only. *)
Definition loop_inv (st : state) : Prop :=
  0 <= lineLen st <= len (src st) /\
  (lineLen st = 0 -> ends_one_LF (src st)) /\
  (lineLen st <> 0 -> src st <> "" /\ last_byte (src st) <> Some LF).

(** The chunks an iteration writes for a name with a price, and the value
    of the counter after it. *)
Definition heading_of (st : state) (n : string) : list chunk :=
  if bool_decide (family_of n <> previousFamily st)
  then (if lineLen st =? 0 then [] else [Sep]) ++ [Comment (family_of n)]
  else [].

Definition counter_of (st : state) (n : string) (p : float) : Z :=
  (if bool_decide (family_of n <> previousFamily st) then 0 else lineLen st) + width n p.

Definition break_of (st : state) (n : string) (p : float) : list chunk :=
  if 80 <? counter_of st n p then [Break] else [].

Global Instance well_formed_dec (n : string) : Decision (well_formed n).
Proof. unfold well_formed. apply _. Defined.

Global Instance has_price_dec (getPrice : string -> float * error) (n : string) :
  Decision (has_price getPrice n).
Proof. unfold has_price. apply _. Defined.

(** ** Measuring lines

    The lines of a text are its segments between line feeds,
    [Split text LF].  To follow a text that is written piece by piece, a line
    is measured while it is open: [advance cur s] is the length of the open
    line after [s], when [cur] bytes of it were written before [s], and
    [closed_ok P cur s] says that the lines closed inside [s] have a length
    in [P]. *)



(** ** Lookups of the worked examples *)

(** The lookup of the end-to-end example. *)
Definition example_prices (instanceType : string) : float * error :=
  if decide (instanceType = "c5.large") then (0.085%float, None)
  else if decide (instanceType = "c5.xlarge") then (0.17%float, None)
  else if decide (instanceType = "m5.large") then (0.096%float, None)
  else (0%float, Some "no price").

(** A lookup that knows every name but [b.y]. *)
Definition all_but_b_y (instanceType : string) : float * error :=
  if decide (instanceType = "b.y") then (0%float, Some "no price") else (1%float, None).

(** A lookup that prices every name at 1. *)
Definition flat_price (instanceType : string) : float * error := (1%float, None).

(** ** [main]

    [main] talks to the outside world at every step.  What the world answers
    is collected in a record: the positional arguments left by [flag.Parse],
    the errors of the calls that may fail, the clock, the pricing provider
    and the source formatter.  Instants of time are integers, [t.After(u)] is
    [u < t].  The provider is refreshed in the background while [main]
    sleeps, so its two time stamps are given for each test of the loop
    condition.  The loop may go on for ever: [main] takes a bound on the
    number of tests and has no result when the bound is reached. *)

Record world : Type := mkWorld {
  Args : list string;                        (* [flag.Args()] *)
  Args0 : string;                            (* [os.Args[0]] *)
  Create : error;                            (* [os.Create("pricing.heapprofile")] *)
  NewSession : error;                        (* [session.NewSession()] *)
  updateStarted : Z;                         (* [time.Now()] before the provider starts *)
  OnDemandLastUpdated : nat -> Z;            (* at each test of the loop condition *)
  SpotLastUpdated : nat -> Z;
  now : string;                              (* [time.Now().UTC().Format(time.RFC3339)] *)
  InstanceTypes : list string;               (* [pricingProvider.InstanceTypes()] *)
  OnDemandPrice : string -> float * error;   (* [pricingProvider.OnDemandPrice] *)
  format_Source : string -> string * error;  (* [format.Source] *)
  WriteFile : string -> string -> error;     (* [ioutil.WriteFile(name, data, 0644)] *)
  WriteHeapProfile : error                   (* [pprof.WriteHeapProfile(f)] *)
}.

Definition region : string := "us-east-1".

(** The condition under which the loop breaks, at its [k]-th test. *)
Definition ready (w : world) (k : nat) : bool :=
  (updateStarted w <? OnDemandLastUpdated w k) && (updateStarted w <? SpotLastUpdated w k).

(** The loop [for { if ... { break }; log.Println(...); time.Sleep(...) }],
    from its [k]-th test on: the number of tests that failed before it broke. *)
Fixpoint wait (w : world) (fuel k : nat) : option nat :=
  match fuel with
  | O => None
  | S fuel => if ready w k then Some k else wait w fuel (S k)
  end.

Definition waiting_line : string := "waiting on pricing update...".

(** The five writes to the buffer that precede the table. *)
Definition preamble (now : string) : string :=
  "//go:build !ignore_autogenerated" +:+ str LF +:+
  "package aws" +:+ str LF +:+
  "import " +:+ str DQUOTE +:+ "time" +:+ str DQUOTE +:+ str LF +:+
  "// generated at " +:+ now +:+ " for " +:+ region +:+ str LF +:+ str LF +:+ str LF +:+
  "var initialPriceUpdate, _ = time.Parse(time.RFC3339, " +:+ str DQUOTE +:+ now +:+
    str DQUOTE +:+ ")" +:+ str LF.

(** How a run ends: [os.Exit] (also through [log.Fatal] and [log.Fatalf]),
    the panic of [session.Must], or the return of [main]. *)
Inductive ending : Type :=
  | Exit (status : Z)
  | Panic (err : string)
  | Return.

(** What a run leaves behind: how it ended, the messages given to package
    [log], the output file written (name and contents), and whether the heap
    profile was written. *)
Record run : Type := mkRun {
  ending_of : ending;
  logged : list string;
  output : option (string * string);
  profile_written : bool
}.

Definition main (w : world) (fuel : nat) : option run :=
  if negb (length (Args w) =? 1)%nat then
    Some (mkRun (Exit 1)
            ["Usage: " +:+ Args0 w +:+ " pkg/cloudprovider/aws/zz_generated.pricing.go"]
            None false)
  else
    match Create w with
    | Some err =>
        Some (mkRun (Exit 1) ["could not create memory profile: " +:+ err] None false)
    | None =>
    match NewSession w with
    | Some err => Some (mkRun (Panic err) [] None false)
    | None =>
    match wait w fuel 0 with
    | None => None
    | Some k =>
        let waiting := replicate k waiting_line in
        let src := preamble (now w) in
        let instanceTypes := sort_Strings (InstanceTypes w) in
        match writePricing src instanceTypes "initialOnDemandPrices" (OnDemandPrice w) with
        | Fatal msg => Some (mkRun (Exit 1) (waiting ++ [msg]) None false)
        | Returns wr =>
            match format_Source w (buffer wr) with
            | (_, Some err) =>
                Some (mkRun (Exit 1) (waiting ++ ["formatting generated source, " +:+ err])
                        None false)
            | (formatted, None) =>
                match WriteFile w (nth 0 (Args w) "") formatted with
                | Some err =>
                    Some (mkRun (Exit 1) (waiting ++ ["writing output, " +:+ err]) None false)
                | None =>
                    match WriteHeapProfile w with
                    | Some err =>
                        Some (mkRun (Exit 1)
                                (waiting ++ ["could not write memory profile: " +:+ err])
                                (Some (nth 0 (Args w) "", formatted)) false)
                    | None =>
                        Some (mkRun Return waiting (Some (nth 0 (Args w) "", formatted)) true)
                    end
                end
            end
        end
    end end end.

(** The text [main] hands to the formatter when the names are well-formed. *)
Definition table_source (w : world) : string :=
  preamble (now w) +:+ declaration_line "initialOnDemandPrices" +:+ str LF +:+
  flatten (layout (OnDemandPrice w) 0 "" (sort_Strings (InstanceTypes w))) +:+ closing_text.

(** A world in which everything works: the provider is refreshed from the
    third test on, and the formatter gives back its input. *)
Definition example_world : world :=
  mkWorld ["out.go"] "prices_gen" None None 1
          (fun k => Z.of_nat k) (fun k => Z.of_nat k - 1)
          "2022-01-01T00:00:00Z" ["m5.large"; "c5.large"; "c5.xlarge"] example_prices
          (fun s => (s, None)) (fun _ _ => None) None.

(** The same world with a provider that also knows a name without a dot. *)
Definition malformed_world : world :=
  mkWorld ["out.go"] "prices_gen" None None 1
          (fun k => Z.of_nat k) (fun k => Z.of_nat k - 1)
          "2022-01-01T00:00:00Z" ["m5.large"; "c5"; "c5.xlarge"] example_prices
          (fun s => (s, None)) (fun _ _ => None) None.

(** * Properties *)

(** ** The [%f] verb on sample values *)

Example fmt_f_samples :
  fmt_f 0.085%float = "0.085000" /\ fmt_f 2.5%float = "2.500000" /\
  fmt_f (-1234.56789)%float = "-1234.567890" /\ fmt_f infinity = "+Inf" /\
  fmt_f 1e21%float = "1000000000000000000000.000000".
Proof. vm_compute. repeat split. Qed.

(** ** Strings: append, length and the last byte *)

Lemma sapp_nil_l (s : string) : "" +:+ s = s.
Proof. reflexivity. Qed.

Lemma sapp_cons (c : ascii) (s t : string) : String c s +:+ t = String c (s +:+ t).
Proof. reflexivity. Qed.

Lemma sapp_nil_r (s : string) : s +:+ "" = s.
Proof. induction s as [|c s IH]; [done|]. by rewrite sapp_cons, IH. Qed.

Lemma sapp_assoc (s t u : string) : (s +:+ t) +:+ u = s +:+ (t +:+ u).
Proof. induction s as [|c s IH]; [done|]. by rewrite !sapp_cons, IH. Qed.

Lemma slength_app (s t : string) :
  String.length (s +:+ t) = (String.length s + String.length t)%nat.
Proof. induction s as [|c s IH]; [done|]. rewrite sapp_cons. simpl. by rewrite IH. Qed.

Lemma len_app (s t : string) : len (s +:+ t) = len s + len t.
Proof. unfold len. rewrite slength_app. lia. Qed.

Lemma len_nonneg (s : string) : 0 <= len s.
Proof. unfold len. lia. Qed.

Lemma sapp_eq_nil (s t : string) : s +:+ t = "" -> s = "" /\ t = "".
Proof. destruct s; [done|]. by rewrite sapp_cons. Qed.

Lemma last_byte_cons (c : ascii) (s : string) :
  last_byte (String c s) = match s with EmptyString => Some c | _ => last_byte s end.
Proof. by destruct s. Qed.

Lemma last_byte_app (s t : string) :
  t <> "" -> last_byte (s +:+ t) = last_byte t.
Proof.
  intros Ht. induction s as [|c s IH]; [done|].
  rewrite sapp_cons, last_byte_cons, IH.
  destruct (s +:+ t) eqn:E; [|done].
  by apply sapp_eq_nil in E as [_ ?].
Qed.

Lemma get_last (s : string) :
  s <> "" -> String.get (String.length s - 1) s = last_byte s.
Proof.
  induction s as [|c s IH]; [done|]. intros _.
  destruct s as [|d s]; [done|].
  rewrite last_byte_cons, <- IH by done.
  simpl. by rewrite Nat.sub_0_r.
Qed.

Lemma len_zero (s : string) : len s = 0 <-> s = "".
Proof. unfold len. destruct s; simpl; split; intros; (done || lia). Qed.

(** ** [newline] on the buffer *)

Lemma newline_cases (s : string) :
  newline s =
    if bool_decide (s = "") then (s, str LF)
    else if bool_decide (last_byte s = Some LF) then (s, "")
    else (s +:+ str LF, "").
Proof.
  unfold newline. destruct (len s =? 0) eqn:E.
  - apply Z.eqb_eq, len_zero in E. by rewrite bool_decide_eq_true_2.
  - apply Z.eqb_neq in E. rewrite len_zero in E.
    rewrite (bool_decide_eq_false_2 (s = "")) by done. by rewrite get_last.
Qed.

(** On the empty buffer the line feed goes to standard output, not to the
    buffer; [writePricing] never calls [newline] there (see [newline_in_loop]). *)
Example newline_empty : newline "" = ("", str LF).
Proof. reflexivity. Qed.

Lemma last_byte_snoc (s : string) (c : ascii) : last_byte (s +:+ str c) = Some c.
Proof. by rewrite last_byte_app. Qed.

(** ** One iteration and the whole loop against the layout *)

Lemma entry_text_last (n : string) (p : float) (s : string) :
  last_byte (s +:+ entry_text n p) = Some " "%char.
Proof.
  unfold entry_text.
  change (String DQUOTE (n +:+ String DQUOTE (":" +:+ fmt_f p +:+ ", ")))
    with (str DQUOTE +:+ (n +:+ (str DQUOTE +:+ (":" +:+ (fmt_f p +:+ ", "))))).
  rewrite <- !sapp_assoc. by rewrite last_byte_app.
Qed.

Lemma width_pos (n : string) (p : float) : 0 < width n p.
Proof. unfold width, len, entry_text. simpl. lia. Qed.

Lemma comment_text_snoc (f : string) :
  exists c, comment_text f = c +:+ str LF /\ forall s, last_byte (s +:+ c) <> Some LF.
Proof.
  exists ("// " +:+ f +:+ " family"). split.
  - unfold comment_text. by rewrite !sapp_assoc.
  - intros s. rewrite <- !sapp_assoc. by rewrite last_byte_app.
Qed.

Lemma flatten_app (a b : list chunk) : flatten (a ++ b) = flatten a +:+ flatten b.
Proof.
  induction a as [|c a IH]; [done|].
  simpl. unfold flatten in *. simpl. by rewrite IH, sapp_assoc.
Qed.

Lemma flatten_cons (c : chunk) (cs : list chunk) : flatten (c :: cs) = chunk_text c +:+ flatten cs.
Proof. reflexivity. Qed.

Ltac norm_text :=
  rewrite ?flatten_app, ?flatten_cons; cbn [chunk_text flatten foldr];
  rewrite ?sapp_assoc, ?sapp_nil_r, ?sapp_nil_l.

Lemma well_formed_eqb (n : string) :
  well_formed n -> negb (length (Split n DOT) =? 2)%nat = false.
Proof. unfold well_formed. intros ->. reflexivity. Qed.

Lemma iteration_skip (getPrice : string -> float * error) (st : state) (n : string)
    (p : float) (e : string) :
  well_formed n -> getPrice n = (p, Some e) -> iteration getPrice st n = Returns st.
Proof. intros Hwf Hp. unfold iteration. by rewrite well_formed_eqb, Hp. Qed.

Lemma newline_in_loop (st : state) :
  loop_inv st ->
  newline (src st) = (src st +:+ flatten (if lineLen st =? 0 then [] else [Sep]), "").
Proof.
  intros (Hnn & Hz & Hnz). rewrite newline_cases.
  destruct (lineLen st =? 0) eqn:E.
  - apply Z.eqb_eq in E. destruct (Hz E) as (c & Hc & _).
    rewrite bool_decide_eq_false_2.
    + rewrite bool_decide_eq_true_2; [by rewrite sapp_nil_r|].
      rewrite Hc. apply last_byte_snoc.
    + rewrite Hc. intros [_ ?]%sapp_eq_nil. done.
  - apply Z.eqb_neq in E. destruct (Hnz E) as [Hne Hl].
    rewrite bool_decide_eq_false_2 by done.
    rewrite bool_decide_eq_false_2 by done.
    by rewrite flatten_cons, sapp_nil_r.
Qed.

Lemma iteration_emit (getPrice : string -> float * error) (st : state) (n : string) (p : float) :
  well_formed n -> getPrice n = (p, None) -> loop_inv st ->
  iteration getPrice st n =
    Returns (mkState (src st +:+ flatten (heading_of st n ++ Entry n p :: break_of st n p))
                     (stdout st)
                     (if 80 <? counter_of st n p then 0 else counter_of st n p)
                     (family_of n)).
Proof.
  intros Hwf Hp Hinv. unfold iteration.
  rewrite well_formed_eqb, Hp by done. fold (family_of n).
  unfold heading_of, break_of, counter_of.
  destruct (bool_decide (family_of n <> previousFamily st)) eqn:Hsw.
  - rewrite newline_in_loop by done. cbn [src stdout lineLen previousFamily].
    fold (width n p). rewrite Z.add_0_l, sapp_nil_r.
    destruct (80 <? width n p); by norm_text.
  - apply bool_decide_eq_false in Hsw. apply dec_stable in Hsw.
    fold (width n p).
    cbn [src stdout lineLen previousFamily].
    destruct (80 <? lineLen st + width n p); norm_text; by rewrite Hsw.
Qed.

Lemma iteration_emit_inv (st : state) (n : string) (p : float) :
  loop_inv st ->
  loop_inv (mkState (src st +:+ flatten (heading_of st n ++ Entry n p :: break_of st n p))
                    (stdout st)
                    (if 80 <? counter_of st n p then 0 else counter_of st n p)
                    (family_of n)).
Proof.
  intros (Hnn & Hz & Hnz). unfold loop_inv. cbn [src lineLen].
  assert (0 < counter_of st n p) as Hpos.
  { unfold counter_of. pose proof (width_pos n p). case_bool_decide; lia. }
  assert (counter_of st n p <= len (src st +:+ flatten (heading_of st n) +:+ entry_text n p))
    as Hle.
  { rewrite !len_app. unfold counter_of. fold (width n p).
    pose proof (len_nonneg (flatten (heading_of st n))). case_bool_decide; lia. }
  rewrite flatten_app, flatten_cons, <- !sapp_assoc. cbn [chunk_text].
  rewrite <- sapp_assoc in Hle.
  unfold break_of. destruct (80 <? counter_of st n p) eqn:E.
  - rewrite flatten_cons. cbn [chunk_text flatten foldr]. rewrite sapp_nil_r.
    split; [split; [lia|apply len_nonneg]|]. split; [|done]. intros _.
    eexists. split; [reflexivity|]. by rewrite entry_text_last.
  - cbn [flatten foldr]. rewrite sapp_nil_r.
    split; [lia|]. split; [lia|]. intros _.
    rewrite entry_text_last. split; [|done].
    intros [_ ?]%sapp_eq_nil. done.
Qed.

Lemma layout_cons_skip (getPrice : string -> float * error) (l : Z) (prev n : string)
    (rest : list string) (p : float) (e : string) :
  getPrice n = (p, Some e) ->
  layout getPrice l prev (n :: rest) = layout getPrice l prev rest.
Proof. intros Hp. simpl. by rewrite Hp. Qed.

Lemma layout_cons_emit (getPrice : string -> float * error) (st : state) (n : string)
    (rest : list string) (p : float) :
  getPrice n = (p, None) ->
  layout getPrice (lineLen st) (previousFamily st) (n :: rest) =
    (heading_of st n ++ Entry n p :: break_of st n p) ++
    layout getPrice (if 80 <? counter_of st n p then 0 else counter_of st n p)
           (family_of n) rest.
Proof.
  intros Hp. simpl. rewrite Hp. unfold heading_of, break_of, counter_of.
  rewrite <- List.app_assoc. f_equal. simpl.
  by destruct (80 <? _).
Qed.

Lemma loop_layout (getPrice : string -> float * error) (names : list string) :
  forall st, Forall well_formed names -> loop_inv st ->
  exists st',
    loop getPrice st names = Returns st' /\
    src st' = src st +:+ flatten (layout getPrice (lineLen st) (previousFamily st) names) /\
    stdout st' = stdout st /\ loop_inv st'.
Proof.
  induction names as [|n rest IH]; intros st Hwf Hinv.
  - exists st. simpl. by rewrite sapp_nil_r.
  - apply Forall_cons in Hwf as [Hn Hrest]. simpl loop.
    destruct (getPrice n) as [p [e|]] eqn:Hp.
    + rewrite (iteration_skip _ _ _ p e), (layout_cons_skip _ _ _ _ _ p e) by done.
      by apply IH.
    + rewrite (iteration_emit _ _ _ p), (layout_cons_emit _ _ _ _ p) by done.
      destruct (IH _ Hrest (iteration_emit_inv st n p Hinv)) as (st' & Hrun & Hsrc & Hout & Hinv').
      cbn [src stdout lineLen previousFamily] in Hsrc, Hout.
      exists st'. split; [done|]. split; [|done].
      by rewrite Hsrc, !flatten_app, !sapp_assoc.
Qed.

(** ** [sort.Strings]: a sorted permutation, and the only one *)

Lemma sort_Strings_Sorted (a : list string) : Sorted String.le (sort_Strings a).
Proof. apply Sorted_merge_sort, _. Qed.

Lemma sort_Strings_StronglySorted (a : list string) : StronglySorted String.le (sort_Strings a).
Proof. apply StronglySorted_merge_sort; apply _. Qed.

Lemma sort_Strings_Permutation (a : list string) : sort_Strings a ≡ₚ a.
Proof. apply merge_sort_Permutation. Qed.

Lemma sort_Strings_unique (a l : list string) :
  Sorted String.le l -> l ≡ₚ a -> l = sort_Strings a.
Proof.
  intros Hs Hp. apply (Sorted_unique String.le); [done|apply sort_Strings_Sorted|].
  by rewrite sort_Strings_Permutation.
Qed.

Lemma sort_Strings_proper (a b : list string) : a ≡ₚ b -> sort_Strings a = sort_Strings b.
Proof.
  intros Hp. apply sort_Strings_unique; [apply sort_Strings_Sorted|].
  by rewrite sort_Strings_Permutation.
Qed.

Lemma sort_Strings_idempotent (a : list string) : sort_Strings (sort_Strings a) = sort_Strings a.
Proof. apply sort_Strings_proper, sort_Strings_Permutation. Qed.

Lemma sort_Strings_Forall (P : string -> Prop) (a : list string) :
  Forall P a -> Forall P (sort_Strings a).
Proof. intros H. by rewrite sort_Strings_Permutation. Qed.

Lemma sort_Strings_elem_of (a : list string) (x : string) : x ∈ sort_Strings a <-> x ∈ a.
Proof. by rewrite sort_Strings_Permutation. Qed.

(** ** [writePricing] against the layout *)

Lemma initial_inv (src0 varName : string) :
  loop_inv (mkState (src0 +:+ declaration_line varName +:+ str LF) "" 0 "").
Proof.
  unfold loop_inv. cbn [src lineLen]. split; [|split; [|done]].
  - split; [done|apply len_nonneg].
  - intros _. exists (src0 +:+ declaration_line varName). split.
    + by rewrite sapp_assoc.
    + unfold declaration_line. rewrite <- !sapp_assoc. by rewrite last_byte_app.
Qed.

Lemma writePricing_layout (src0 : string) (names : list string) (varName : string)
    (getPrice : string -> float * error) :
  Forall well_formed names ->
  writePricing src0 names varName getPrice =
    Returns (mkWritten
      (src0 +:+ declaration_line varName +:+ str LF +:+
       flatten (layout getPrice 0 "" (sort_Strings names)) +:+ closing_text)
      "" (sort_Strings names)).
Proof.
  intros Hwf. unfold writePricing.
  destruct (loop_layout getPrice (sort_Strings names) _
              (sort_Strings_Forall _ _ Hwf) (initial_inv src0 varName))
    as (st' & -> & Hsrc & Hout & _).
  cbn [src stdout lineLen previousFamily] in Hsrc, Hout.
  by rewrite Hsrc, Hout, !sapp_assoc.
Qed.

(** ** [strings.Split] *)

Lemma Split_length_dots (s : string) : length (Split s DOT) = S (dots s).
Proof.
  induction s as [|c s IH]; [done|]. simpl.
  destruct (Ascii.eqb c DOT); simpl; [by rewrite IH|].
  destruct (Split s DOT); simpl in *; lia.
Qed.

Lemma well_formed_one_dot (n : string) : well_formed n <-> dots n = 1%nat.
Proof. unfold well_formed. rewrite Split_length_dots. lia. Qed.

Lemma Split_nonempty (s : string) (sep : ascii) : exists l ls, Split s sep = l :: ls.
Proof.
  destruct s as [|c s]; simpl; [by eauto|].
  destruct (Ascii.eqb c sep); [by eauto|]. destruct (Split s sep); by eauto.
Qed.

Lemma Join_Split (s : string) (sep : ascii) : Join (Split s sep) (str sep) = s.
Proof.
  induction s as [|c s IH]; [done|]. simpl.
  destruct (Split_nonempty s sep) as (l & ls & Hs). rewrite Hs in IH |- *.
  destruct (Ascii.eqb c sep) eqn:E.
  - apply Ascii.eqb_eq in E as ->.
    change (Join ("" :: l :: ls) (str sep)) with (String sep (Join (l :: ls) (str sep))).
    by rewrite IH.
  - destruct ls as [|l' ls].
    + simpl in *. by rewrite IH.
    + change (Join (String c l :: l' :: ls) (str sep))
        with (String c (Join (l :: l' :: ls) (str sep))).
      by rewrite IH.
Qed.

(** ** Malformed names *)

Lemma iteration_fatal (getPrice : string -> float * error) (st : state) (n : string) :
  ~ well_formed n -> iteration getPrice st n = Fatal (parsing_message n (Split n DOT)).
Proof.
  intros Hn. unfold iteration.
  destruct (length (Split n DOT) =? 2)%nat eqn:E; [|done].
  by apply Nat.eqb_eq in E.
Qed.

Lemma iteration_returns (getPrice : string -> float * error) (st : state) (n : string) :
  well_formed n -> exists st', iteration getPrice st n = Returns st'.
Proof.
  intros Hn. unfold iteration. rewrite well_formed_eqb by done.
  destruct (getPrice n) as [p [e|]]; [by eexists|].
  destruct (80 <? _); by eexists.
Qed.

Lemma loop_fatal (getPrice : string -> float * error) (pre post : list string) (bad : string) :
  forall st, Forall well_formed pre -> ~ well_formed bad ->
  loop getPrice st (pre ++ bad :: post) = Fatal (parsing_message bad (Split bad DOT)).
Proof.
  induction pre as [|n pre IH]; intros st Hpre Hbad; simpl.
  - by rewrite iteration_fatal.
  - apply Forall_cons in Hpre as [Hn Hpre].
    destruct (iteration_returns getPrice st n Hn) as [st' ->]. by apply IH.
Qed.

Lemma first_malformed (l : list string) :
  Exists (fun n => ~ well_formed n) l ->
  exists pre bad post, l = pre ++ bad :: post /\ Forall well_formed pre /\ ~ well_formed bad.
Proof.
  induction l as [|n l IH]; intros Hex; [by apply Exists_nil in Hex|].
  destruct (decide (well_formed n)) as [Hn|Hn].
  - apply Exists_cons in Hex as [?|Hex]; [done|].
    destruct (IH Hex) as (pre & bad & post & -> & Hpre & Hbad).
    exists (n :: pre), bad, post. repeat split; [by constructor|done].
  - exists [], n, l. by repeat split.
Qed.

(** ** The lookup is consulted on the given names only *)

Lemma iteration_ext (g1 g2 : string -> float * error) (st : state) (n : string) :
  g1 n = g2 n -> iteration g1 st n = iteration g2 st n.
Proof. intros H. unfold iteration. by rewrite H. Qed.

Lemma loop_ext (g1 g2 : string -> float * error) (names : list string) :
  forall st, (forall n, n ∈ names -> g1 n = g2 n) -> loop g1 st names = loop g2 st names.
Proof.
  induction names as [|n rest IH]; intros st H; [done|]. simpl.
  rewrite (iteration_ext g1 g2) by (apply H; left).
  destruct (iteration g2 st n); [done|]. apply IH. intros m Hm. apply H. by right.
Qed.

Lemma writePricing_ext (src0 : string) (names : list string) (varName : string)
    (g1 g2 : string -> float * error) :
  (forall n, n ∈ names -> g1 n = g2 n) ->
  writePricing src0 names varName g1 = writePricing src0 names varName g2.
Proof.
  intros H. unfold writePricing. rewrite (loop_ext g1 g2); [done|].
  intros n Hn. apply H. by apply sort_Strings_elem_of.
Qed.

(** ** Entries and comments of the layout *)

Lemma entries_app (a b : list chunk) : entries (a ++ b) = entries a ++ entries b.
Proof. apply omap_app. Qed.

Lemma comments_app (a b : list chunk) : comments (a ++ b) = comments a ++ comments b.
Proof. apply omap_app. Qed.

Lemma priced_names_cons (getPrice : string -> float * error) (n : string) (rest : list string) :
  priced_names getPrice (n :: rest) =
    match getPrice n with
    | (p, None) => (n, p) :: priced_names getPrice rest
    | (_, Some _) => priced_names getPrice rest
    end.
Proof. unfold priced_names. simpl. by destruct (getPrice n) as [p [e|]]. Qed.

Lemma entries_layout (getPrice : string -> float * error) (names : list string) :
  forall l prev, entries (layout getPrice l prev names) = priced_names getPrice names.
Proof.
  induction names as [|n rest IH]; intros l prev; [done|].
  rewrite priced_names_cons. simpl.
  destruct (getPrice n) as [p [e|]] eqn:Hp; [apply IH|].
  rewrite entries_app.
  replace (entries (if bool_decide _ then _ else _)) with (@nil (string * float))
    by (by repeat case_match).
  simpl. change (omap _ ?l) with (entries l).
  f_equal. destruct (80 <? _); apply IH.
Qed.

Lemma priced_names_fst (getPrice : string -> float * error) (names : list string) :
  (priced_names getPrice names).*1 = filter (has_price getPrice) names.
Proof.
  induction names as [|n rest IH]; [done|].
  rewrite priced_names_cons. unfold has_price in *.
  destruct (getPrice n) as [p [e|]] eqn:Hp.
  - rewrite filter_cons_False by (by rewrite Hp). apply IH.
  - rewrite filter_cons_True by (by rewrite Hp). rewrite fmap_cons. by rewrite IH.
Qed.

Lemma comments_layout (getPrice : string -> float * error) (names : list string) :
  forall l prev,
    comments (layout getPrice l prev names) =
    runs prev (family_of <$> filter (has_price getPrice) names).
Proof.
  induction names as [|n rest IH]; intros l prev; [done|].
  simpl. unfold has_price in *. destruct (getPrice n) as [p [e|]] eqn:Hp.
  - rewrite filter_cons_False by (by rewrite Hp). apply IH.
  - rewrite filter_cons_True by (by rewrite Hp).
    rewrite comments_app, fmap_cons. cbn [runs].
    assert (forall (c : bool) l' prev',
              comments (Entry n p :: (if c then Break :: layout getPrice 0 prev' rest
                                      else layout getPrice l' prev' rest))
              = runs prev' (family_of <$> filter (fun n => (getPrice n).2 = None) rest))
      as Htail.
    { intros [] l' prev'; apply IH. }
    rewrite Htail. destruct (bool_decide (family_of n <> prev)) eqn:Hsw.
    + by destruct (l =? 0).
    + done.
Qed.

Lemma layout_filter (getPrice : string -> float * error) (names : list string) :
  forall l prev,
    layout getPrice l prev (filter (has_price getPrice) names) = layout getPrice l prev names.
Proof.
  induction names as [|n rest IH]; intros l prev; [done|].
  unfold has_price in *. destruct (getPrice n) as [p [e|]] eqn:Hp.
  - rewrite filter_cons_False by (by rewrite Hp). simpl. rewrite Hp. apply IH.
  - rewrite filter_cons_True by (by rewrite Hp). simpl. rewrite Hp.
    f_equal. f_equal. destruct (80 <? _); [f_equal|]; apply IH.
Qed.

(** ** Sorting and filtering *)

Lemma StronglySorted_filter {A} (R : relation A) (P : A -> Prop) `{!forall x, Decision (P x)}
    (l : list A) :
  StronglySorted R l -> StronglySorted R (filter P l).
Proof.
  induction 1 as [|x l Hl IH Hx]; [constructor|].
  rewrite filter_cons. case_decide; [|done].
  constructor; [done|]. apply Forall_forall. intros y [_ Hy]%list_elem_of_filter.
  by apply (proj1 (Forall_forall _ _) Hx).
Qed.

Lemma sort_Strings_filter (P : string -> Prop) `{!forall x, Decision (P x)} (a : list string) :
  sort_Strings (filter P a) = filter P (sort_Strings a).
Proof.
  symmetry. apply sort_Strings_unique.
  - apply StronglySorted_Sorted, StronglySorted_filter, sort_Strings_StronglySorted.
  - by rewrite sort_Strings_Permutation.
Qed.

Lemma StronglySorted_strict (l : list string) :
  StronglySorted String.le l -> NoDup l -> StronglySorted (strict String.le) l.
Proof.
  induction 1 as [|x l Hl IH Hx]; intros Hnd; [constructor|].
  apply NoDup_cons in Hnd as [Hnin Hnd]. constructor; [by apply IH|].
  apply Forall_forall. intros y Hy. split.
  - by apply (proj1 (Forall_forall _ _) Hx).
  - intros Hyx.
    assert (x = y) as -> by (apply (anti_symm String.le); [|done];
                             by apply (proj1 (Forall_forall _ _) Hx)).
    done.
Qed.

(** ** The rendered text: determinism and order of the input *)

(** C1. Determinism: on well-formed names, two calls whose lookups give the
    same results on these names return the same buffer, byte for byte; so
    does a further call on the slice as the first call left it (sorted in
    place). *)
Theorem writePricing_deterministic (src0 : string) (names : list string) (varName : string)
    (g1 g2 : string -> float * error) :
  Forall well_formed names ->
  (forall n, n ∈ names -> g1 n = g2 n) ->
  exists w,
    writePricing src0 names varName g1 = Returns w /\
    writePricing src0 names varName g2 = Returns w /\
    writePricing src0 (names_after w) varName g2 = Returns w.
Proof.
  intros Hwf Hext. eexists. split; [by apply writePricing_layout|].
  rewrite <- (writePricing_ext _ _ _ g1 g2) by done. split; [by apply writePricing_layout|].
  cbn [names_after].
  rewrite <- (writePricing_ext _ _ _ g1 g2)
    by (intros n Hn; by apply Hext, sort_Strings_elem_of).
  rewrite writePricing_layout by (by apply sort_Strings_Forall).
  by rewrite sort_Strings_idempotent.
Qed.

(** C10. The result depends on the names up to their order only: two
    slices that are permutations of each other give the same result. *)
Theorem writePricing_Permutation (src0 : string) (names1 names2 : list string)
    (varName : string) (getPrice : string -> float * error) :
  names1 ≡ₚ names2 ->
  writePricing src0 names1 varName getPrice = writePricing src0 names2 varName getPrice.
Proof. intros Hp. unfold writePricing. by rewrite (sort_Strings_proper _ _ Hp). Qed.

(** C4. A name without exactly one dot (none, or two or more) ends the
    process: the call does not hand back a buffer, whatever the lookup says
    of that name, and the message names such a name of the input and the
    segments it splits into (the least such name in byte order). *)
Theorem malformed_name_is_fatal (src0 : string) (names : list string) (varName : string)
    (getPrice : string -> float * error) :
  Exists (fun n => dots n <> 1%nat) names ->
  exists bad,
    bad ∈ names /\ dots bad <> 1%nat /\
    (forall n, n ∈ names -> dots n <> 1%nat -> String.le bad n) /\
    writePricing src0 names varName getPrice = Fatal (parsing_message bad (Split bad DOT)) /\
    (forall w, writePricing src0 names varName getPrice <> Returns w).
Proof.
  intros Hex.
  assert (Exists (fun n => ~ well_formed n) (sort_Strings names)) as Hex'.
  { rewrite sort_Strings_Permutation. eapply Exists_impl; [done|].
    intros n Hn. by rewrite well_formed_one_dot. }
  destruct (first_malformed _ Hex') as (pre & bad & post & Hsort & Hpre & Hbad).
  assert (writePricing src0 names varName getPrice
          = Fatal (parsing_message bad (Split bad DOT))) as Hrun.
  { unfold writePricing. by rewrite Hsort, loop_fatal. }
  exists bad. split; [|split; [by rewrite <- well_formed_one_dot|split; [|split; [done|]]]].
  - apply sort_Strings_elem_of. rewrite Hsort. apply elem_of_app. right. left.
  - intros n Hn Hnwf. rewrite <- well_formed_one_dot in Hnwf.
    pose proof (sort_Strings_StronglySorted names) as Hss. rewrite Hsort in Hss.
    apply sort_Strings_elem_of in Hn. rewrite Hsort in Hn.
    apply elem_of_app in Hn as [Hn|Hn].
    + by apply (proj1 (Forall_forall _ _) Hpre) in Hn.
    + apply StronglySorted_app_1_r in Hss. apply StronglySorted_inv in Hss as [_ Hall].
      apply elem_of_cons in Hn as [->|Hn]; [done|].
      by apply (proj1 (Forall_forall _ _) Hall).
  - intros w. by rewrite Hrun.
Qed.

(** ** Order of the entries *)

(** C2, as amended. On well-formed names the entries are those of the names
    with a price, in ascending byte order; the order is strict when the
    input holds no name twice (a name given twice is written twice). *)
Theorem entries_ascending (src0 : string) (names : list string) (varName : string)
    (getPrice : string -> float * error) :
  Forall well_formed names ->
  let L := layout getPrice 0 "" (sort_Strings names) in
  writePricing src0 names varName getPrice =
    Returns (mkWritten (src0 +:+ declaration_line varName +:+ str LF +:+ flatten L +:+ closing_text)
                       "" (sort_Strings names)) /\
  (entries L).*1 = filter (has_price getPrice) (sort_Strings names) /\
  StronglySorted String.le (entries L).*1 /\
  (NoDup names -> StronglySorted (strict String.le) (entries L).*1).
Proof.
  intros Hwf L. split; [by apply writePricing_layout|].
  assert ((entries L).*1 = filter (has_price getPrice) (sort_Strings names)) as HL.
  { unfold L. by rewrite entries_layout, priced_names_fst. }
  split; [done|]. rewrite HL.
  assert (StronglySorted String.le (filter (has_price getPrice) (sort_Strings names))) as Hs
    by apply StronglySorted_filter, sort_Strings_StronglySorted.
  split; [done|]. intros Hnd. apply StronglySorted_strict; [done|].
  apply NoDup_filter. by rewrite sort_Strings_Permutation.
Qed.

(** C2 as it is written fails on a name given twice: both copies are
    written, and equal names are not in strict order. *)
Lemma repeated_name_not_strictly_ascending :
  let getPrice := fun _ : string => (1%float, @None string) in
  let L := layout getPrice 0 "" (sort_Strings ["a.b"; "a.b"]) in
  Forall well_formed ["a.b"; "a.b"] /\
  writePricing "" ["a.b"; "a.b"] "v" getPrice =
    Returns (mkWritten
      ("var v = map[string]float64{" +:+ str LF +:+
       "// a family" +:+ str LF +:+
       str DQUOTE +:+ "a.b" +:+ str DQUOTE +:+ ":1.000000, " +:+
       str DQUOTE +:+ "a.b" +:+ str DQUOTE +:+ ":1.000000, " +:+ str LF +:+
       "}" +:+ str LF +:+ str LF)
      "" ["a.b"; "a.b"]) /\
  (entries L).*1 = ["a.b"; "a.b"] /\
  ~ StronglySorted (strict String.le) (entries L).*1.
Proof.
  intros getPrice L.
  assert ((entries L).*1 = ["a.b"; "a.b"]) as HL by (vm_compute; reflexivity).
  split; [repeat constructor|]. split; [vm_compute; reflexivity|]. split; [done|].
  rewrite HL. intros Hs. apply StronglySorted_inv in Hs as [_ Hall].
  apply Forall_cons in Hall as [[_ Hne] _]. by apply Hne.
Qed.

(** ** Names without a price *)

(** C3. A well-formed name whose lookup fails is passed over: the call
    returns, nothing is printed, no entry is written for the name, and the
    buffer is the one the call gives without that name in the input. *)
Theorem failed_lookup_is_skipped (src0 : string) (names : list string) (varName : string)
    (getPrice : string -> float * error) (x : string) :
  Forall well_formed names -> x ∈ names -> ~ has_price getPrice x ->
  let L := layout getPrice 0 "" (sort_Strings names) in
  exists w,
    writePricing src0 names varName getPrice = Returns w /\
    printed w = "" /\
    buffer w = src0 +:+ declaration_line varName +:+ str LF +:+ flatten L +:+ closing_text /\
(x ∉ (entries L).*1) /\
    exists w',
      writePricing src0 (filter (fun n => n <> x) names) varName getPrice = Returns w' /\
      buffer w' = buffer w /\ printed w' = printed w.
Proof.
  intros Hwf Hx Hnp L. eexists. split; [by apply writePricing_layout|].
  cbn [buffer printed]. split; [done|]. split; [done|]. split.
  - unfold L. rewrite entries_layout, priced_names_fst.
    by intros [? _]%list_elem_of_filter.
  - eexists. split.
    + apply writePricing_layout.
      apply Forall_forall. intros n [_ Hn]%list_elem_of_filter.
      by apply (proj1 (Forall_forall _ _) Hwf).
    + cbn [buffer printed]. split; [|done]. do 3 f_equal. unfold L.
      rewrite sort_Strings_filter, <- layout_filter, list_filter_filter.
      rewrite <- (layout_filter _ (sort_Strings names)).
      rewrite (list_filter_iff _ (has_price getPrice)); [done|].
      intros n. split; [by intros [? _]|].
      intros Hn. split; [done|]. by intros ->.
Qed.

(** ** The first entry and its family comment *)

Lemma layout_first (getPrice : string -> float * error) (n : string) (p : float)
    (rest : list (string * float)) (names : list string) :
  forall prev,
    priced_names getPrice names = (n, p) :: rest -> family_of n <> prev ->
    exists tail,
      layout getPrice 0 prev names = Comment (family_of n) :: Entry n p :: tail /\
      entries tail = rest.
Proof.
  induction names as [|m names IH]; intros prev Hpn Hf; [done|].
  rewrite priced_names_cons in Hpn. simpl.
  destruct (getPrice m) as [pm [e|]] eqn:Hm; [by apply IH|].
  injection Hpn as -> -> <-.
  rewrite bool_decide_eq_true_2 by done. simpl.
  eexists. split; [reflexivity|].
  destruct (80 <? _); apply entries_layout.
Qed.

(** C8, as amended. On well-formed names, when the first name with a price
    (in sorted order) has a non-empty family, the text after the declaration
    line starts with the comment line of that family, followed at once by
    the entry of that name. *)
Theorem first_entry_has_family_comment (src0 : string) (names : list string)
    (varName : string) (getPrice : string -> float * error)
    (n : string) (p : float) (rest : list (string * float)) :
  Forall well_formed names ->
  priced_names getPrice (sort_Strings names) = (n, p) :: rest ->
  family_of n <> "" ->
  exists tail,
    layout getPrice 0 "" (sort_Strings names) = Comment (family_of n) :: Entry n p :: tail /\
    entries tail = rest /\
    writePricing src0 names varName getPrice =
      Returns (mkWritten
        (src0 +:+ declaration_line varName +:+ str LF +:+
         comment_text (family_of n) +:+ entry_text n p +:+ flatten tail +:+ closing_text)
        "" (sort_Strings names)).
Proof.
  intros Hwf Hpn Hf.
  destruct (layout_first getPrice n p rest _ "" Hpn Hf) as (tail & HL & Ht).
  exists tail. split; [done|]. split; [done|].
  rewrite writePricing_layout, HL by done. by norm_text.
Qed.

(** C8 as it is written fails on a name with an empty family such as [.x]:
    it splits into two segments, its family equals the initial value of
    [previousFamily], and its entry is written with no comment before it. *)
Lemma empty_family_has_no_comment :
  let getPrice := fun _ : string => (1%float, @None string) in
  well_formed ".x" /\ has_price getPrice ".x" /\ family_of ".x" = "" /\
  layout getPrice 0 "" (sort_Strings [".x"]) = [Entry ".x" 1%float] /\
  writePricing "" [".x"] "v" getPrice =
    Returns (mkWritten
      ("var v = map[string]float64{" +:+ str LF +:+
       str DQUOTE +:+ ".x" +:+ str DQUOTE +:+ ":1.000000, " +:+ str LF +:+
       "}" +:+ str LF +:+ str LF)
      "" [".x"]).
Proof. intros getPrice. repeat split; vm_compute; reflexivity. Qed.

(** ** [newline] at a change of family *)

Lemma newline_buffer (b : string) :
  (newline b).1 =
    if bool_decide (b <> "" /\ last_byte b <> Some LF) then b +:+ str LF else b.
Proof.
  rewrite newline_cases. destruct (decide (b = "")) as [->|Hne]; [done|].
  rewrite (bool_decide_eq_false_2 (b = "")) by done.
  destruct (decide (last_byte b = Some LF)) as [Hl|Hl].
  - rewrite bool_decide_eq_true_2 by done. by rewrite bool_decide_eq_false_2 by tauto.
  - rewrite bool_decide_eq_false_2 by done. by rewrite bool_decide_eq_true_2.
Qed.

Lemma loop_reaches_inv (getPrice : string -> float * error) (names : list string)
    (st st' : state) :
  Forall well_formed names -> loop_inv st -> loop getPrice st names = Returns st' ->
  loop_inv st'.
Proof.
  intros Hwf Hinv Hrun.
  destruct (loop_layout getPrice names st Hwf Hinv) as (st'' & Hrun' & _ & _ & Hinv').
  rewrite Hrun in Hrun'. by injection Hrun' as ->.
Qed.

Lemma loop_lineLen_bound (getPrice : string -> float * error) (names : list string)
    (st st' : state) :
  Forall well_formed names -> loop_inv st -> loop getPrice st names = Returns st' ->
  0 <= lineLen st' <= len (src st').
Proof. intros Hwf Hinv Hrun. by destruct (loop_reaches_inv _ _ _ _ Hwf Hinv Hrun). Qed.

(** C9. When the loop, on its way through the sorted names, comes to a name
    with a price whose family differs from [previousFamily], [newline] adds
    a line feed exactly if the buffer is non-empty and does not end with
    one, and prints nothing; the buffer then ends with one line feed; the
    comment line and the entry follow, and the counter restarts from 0: after
    the entry it is the entry's length (or 0 again after a line break). *)
Theorem family_switch_newline (src0 : string) (names : list string) (varName : string)
    (getPrice : string -> float * error)
    (pre post : list string) (n : string) (p : float) (st : state) :
  Forall well_formed names ->
  sort_Strings names = pre ++ n :: post ->
  loop getPrice (mkState (src0 +:+ declaration_line varName +:+ str LF) "" 0 "") pre
    = Returns st ->
  getPrice n = (p, None) ->
  family_of n <> previousFamily st ->
  let buf := (newline (src st)).1 in
  buf = (if bool_decide (src st <> "" /\ last_byte (src st) <> Some LF)
         then src st +:+ str LF else src st) /\
  (newline (src st)).2 = "" /\
  ends_one_LF buf /\
  iteration getPrice st n =
    Returns (mkState
      (buf +:+ comment_text (family_of n) +:+ entry_text n p +:+
       (if 80 <? width n p then str LF else ""))
      (stdout st)
      (if 80 <? width n p then 0 else width n p)
      (family_of n)).
Proof.
  intros Hwf Hsort Hrun Hp Hsw buf.
  pose proof (sort_Strings_Forall _ _ Hwf) as Hall. rewrite Hsort in Hall.
  apply Forall_app in Hall as [Hpre Hn]. apply Forall_cons in Hn as [Hn _].
  pose proof (loop_reaches_inv _ _ _ _ Hpre (initial_inv src0 varName) Hrun) as Hinv.
  split; [apply newline_buffer|].
  pose proof (newline_in_loop st Hinv) as Hnl.
  assert (buf = src st +:+ flatten (if lineLen st =? 0 then [] else [Sep])) as Hbuf
    by (unfold buf; by rewrite Hnl).
  split; [by rewrite Hnl|]. split.
  - rewrite Hbuf. destruct Hinv as (_ & Hz & Hnz).
    destruct (lineLen st =? 0) eqn:E.
    + apply Z.eqb_eq in E. norm_text. by apply Hz.
    + apply Z.eqb_neq in E. norm_text. exists (src st). split; [done|]. by apply Hnz.
  - rewrite (iteration_emit _ _ _ p) by done.
    unfold heading_of, break_of, counter_of. rewrite bool_decide_eq_true_2 by done.
    rewrite Z.add_0_l, Hbuf.
    destruct (80 <? width n p); by norm_text.
Qed.

(** ** Worked examples *)

(** C7. The three names of the example, in any order, with the variable name
    [initialOnDemandPrices]: the declaration line, the [c5] comment and its
    two entries on one line, the [m5] comment and its entry, the closing
    brace on a line of its own and an empty line. *)
Theorem end_to_end_example (src0 : string) (names : list string) :
  names ≡ₚ ["c5.large"; "c5.xlarge"; "m5.large"] ->
  writePricing src0 names "initialOnDemandPrices" example_prices =
    Returns (mkWritten
      (src0 +:+
       ("var initialOnDemandPrices = map[string]float64{" +:+ str LF +:+
        "// c5 family" +:+ str LF +:+
        str DQUOTE +:+ "c5.large" +:+ str DQUOTE +:+ ":0.085000, " +:+
        str DQUOTE +:+ "c5.xlarge" +:+ str DQUOTE +:+ ":0.170000, " +:+ str LF +:+
        "// m5 family" +:+ str LF +:+
        str DQUOTE +:+ "m5.large" +:+ str DQUOTE +:+ ":0.096000, " +:+ str LF +:+
        "}" +:+ str LF +:+
        str LF))
      "" ["c5.large"; "c5.xlarge"; "m5.large"]).
Proof.
  intros Hp.
  rewrite writePricing_layout by (rewrite Hp; repeat constructor).
  rewrite (sort_Strings_proper _ _ Hp).
  reflexivity.
Qed.

(** ** Family grouping *)






(** ** Lines of a text *)

Section Lines.
Variable P : nat -> Prop.
Hypothesis P_down : forall a b : nat, (a <= b)%nat -> P b -> P a.






End Lines.

(** ** The line-wrap bound *)






Section WrapBound.
Variable P : nat -> Prop.
Hypothesis P_down : forall a b : nat, (a <= b)%nat -> P b -> P a.
Hypothesis P_80 : P 80.
Variable getPrice : string -> float * error.

End WrapBound.

Lemma Split_app_sep (a b : string) (sep : ascii) :
  Split (a +:+ String sep b) sep = Split a sep ++ Split b sep.
Proof.
  induction a as [|c a IH].
  - rewrite sapp_nil_l. simpl. by rewrite Ascii.eqb_refl.
  - rewrite sapp_cons. simpl. destruct (Ascii.eqb c sep); [by rewrite IH|].
    rewrite IH. by destruct (Split_nonempty a sep) as (l & ls & ->).
Qed.



(** ** The theorems at concrete inputs *)

Lemma writePricing_deterministic_witness :
  Forall well_formed ["m5.large"; "c5.large"] /\
  exists w,
    writePricing "" ["m5.large"; "c5.large"] "v" example_prices = Returns w /\
    writePricing "" ["m5.large"; "c5.large"] "v" (fun n => example_prices n) = Returns w /\
    writePricing "" (names_after w) "v" (fun n => example_prices n) = Returns w.
Proof.
  split; [repeat constructor|].
  apply (writePricing_deterministic "" ["m5.large"; "c5.large"] "v"
           example_prices (fun n => example_prices n)).
  - repeat constructor.
  - intros n _. reflexivity.
Defined.

Lemma entries_ascending_witness :
  Forall well_formed ["b.y"; "a.x"] /\
  StronglySorted String.le
    (entries (layout flat_price 0 "" (sort_Strings ["b.y"; "a.x"]))).*1.
Proof.
  split; [repeat constructor|].
  apply (entries_ascending "" ["b.y"; "a.x"] "v" flat_price). repeat constructor.
Defined.

Lemma failed_lookup_is_skipped_witness :
  (Forall well_formed ["a.x"; "b.y"] /\ "b.y" ∈ ["a.x"; "b.y"] /\ ~ has_price all_but_b_y "b.y") /\
  exists w,
    writePricing "" ["a.x"; "b.y"] "v" all_but_b_y = Returns w /\
    printed w = "" /\
    buffer w = "" +:+ declaration_line "v" +:+ str LF +:+
               flatten (layout all_but_b_y 0 "" (sort_Strings ["a.x"; "b.y"])) +:+
               closing_text /\
    ("b.y" ∉ (entries (layout all_but_b_y 0 "" (sort_Strings ["a.x"; "b.y"]))).*1) /\
    exists w',
      writePricing "" (filter (fun n => n <> "b.y") ["a.x"; "b.y"]) "v" all_but_b_y
        = Returns w' /\
      buffer w' = buffer w /\ printed w' = printed w.
Proof.
  assert (Forall well_formed ["a.x"; "b.y"]) as Hwf by (repeat constructor).
  assert ("b.y" ∈ ["a.x"; "b.y"]) as Hin by (right; left).
  assert (~ has_price all_but_b_y "b.y") as Hnp by (intros H; discriminate H).
  split; [exact (conj Hwf (conj Hin Hnp))|].
  exact (failed_lookup_is_skipped "" ["a.x"; "b.y"] "v" all_but_b_y "b.y" Hwf Hin Hnp).
Defined.

Lemma malformed_name_is_fatal_witness :
  Exists (fun n => dots n <> 1%nat) ["a.x"; "c5"; "b.y"] /\
  writePricing "" ["a.x"; "c5"; "b.y"] "v" flat_price =
    Fatal "parsing instance family c5, got [c5]".
Proof.
  assert (Exists (fun n => dots n <> 1%nat) ["a.x"; "c5"; "b.y"]) as Hex
    by (apply Exists_cons_tl, Exists_cons_hd; discriminate).
  split; [exact Hex|].
  destruct (malformed_name_is_fatal "" ["a.x"; "c5"; "b.y"] "v" flat_price Hex)
    as (bad & Hin & Hbad & _ & Hrun & _).
  rewrite Hrun. clear Hrun.
  apply elem_of_cons in Hin as [->|Hin]; [by destruct Hbad|].
  apply elem_of_cons in Hin as [->|Hin]; [reflexivity|].
  apply list_elem_of_singleton in Hin as ->. by destruct Hbad.
Defined.



Lemma end_to_end_example_witness :
  ["m5.large"; "c5.large"; "c5.xlarge"] ≡ₚ ["c5.large"; "c5.xlarge"; "m5.large"] /\
  exists text,
    writePricing "" ["m5.large"; "c5.large"; "c5.xlarge"] "initialOnDemandPrices" example_prices
      = Returns (mkWritten text "" ["c5.large"; "c5.xlarge"; "m5.large"]).
Proof.
  assert (["m5.large"; "c5.large"; "c5.xlarge"] ≡ₚ ["c5.large"; "c5.xlarge"; "m5.large"]) as Hp
    by apply (Permutation_cons_append ["c5.large"; "c5.xlarge"] "m5.large").
  split; [exact Hp|]. eexists.
  exact (end_to_end_example "" ["m5.large"; "c5.large"; "c5.xlarge"] Hp).
Defined.

Lemma first_entry_has_family_comment_witness :
  (Forall well_formed ["b.y"; "a.x"] /\
   priced_names flat_price (sort_Strings ["b.y"; "a.x"]) = ("a.x", 1%float) :: [("b.y", 1%float)] /\
   family_of "a.x" <> "") /\
  exists tail,
    layout flat_price 0 "" (sort_Strings ["b.y"; "a.x"])
      = Comment (family_of "a.x") :: Entry "a.x" 1%float :: tail /\
    entries tail = [("b.y", 1%float)] /\
    writePricing "" ["b.y"; "a.x"] "v" flat_price =
      Returns (mkWritten
        ("" +:+ declaration_line "v" +:+ str LF +:+
         comment_text (family_of "a.x") +:+ entry_text "a.x" 1%float +:+
         flatten tail +:+ closing_text)
        "" (sort_Strings ["b.y"; "a.x"])).
Proof.
  assert (Forall well_formed ["b.y"; "a.x"]) as Hwf by (repeat constructor).
  assert (priced_names flat_price (sort_Strings ["b.y"; "a.x"])
          = ("a.x", 1%float) :: [("b.y", 1%float)]) as Hpn by reflexivity.
  assert (family_of "a.x" <> "") as Hf by discriminate.
  split; [exact (conj Hwf (conj Hpn Hf))|].
  exact (first_entry_has_family_comment "" ["b.y"; "a.x"] "v" flat_price
           "a.x" 1%float [("b.y", 1%float)] Hwf Hpn Hf).
Defined.

Lemma family_switch_newline_witness :
  let st := mkState ("" +:+ declaration_line "v" +:+ str LF +:+
                     comment_text "a" +:+ entry_text "a.x" 1%float) "" 16 "a" in
  (sort_Strings ["b.y"; "a.x"] = ["a.x"] ++ "b.y" :: [] /\
   loop flat_price (mkState ("" +:+ declaration_line "v" +:+ str LF) "" 0 "") ["a.x"]
     = Returns st /\
   family_of "b.y" <> previousFamily st) /\
  (newline (src st)).1 = src st +:+ str LF /\
  iteration flat_price st "b.y" =
    Returns (mkState
      (src st +:+ str LF +:+ comment_text "b" +:+ entry_text "b.y" 1%float) "" 16 "b").
Proof.
  intros st.
  assert (Forall well_formed ["b.y"; "a.x"]) as Hwf by (repeat constructor).
  assert (sort_Strings ["b.y"; "a.x"] = ["a.x"] ++ "b.y" :: []) as Hsort by reflexivity.
  assert (loop flat_price (mkState ("" +:+ declaration_line "v" +:+ str LF) "" 0 "") ["a.x"]
          = Returns st) as Hrun by reflexivity.
  assert (family_of "b.y" <> previousFamily st) as Hsw by discriminate.
  split; [exact (conj Hsort (conj Hrun Hsw))|].
  destruct (family_switch_newline "" ["b.y"; "a.x"] "v" flat_price ["a.x"] [] "b.y"
              1%float st Hwf Hsort Hrun eq_refl Hsw) as (Hbuf & _ & _ & Hit).
  split; [exact Hbuf|exact Hit].
Defined.

Lemma writePricing_Permutation_witness :
  ["b.y"; "a.x"] ≡ₚ ["a.x"; "b.y"] /\
  writePricing "" ["b.y"; "a.x"] "v" flat_price = writePricing "" ["a.x"; "b.y"] "v" flat_price.
Proof.
  assert (["b.y"; "a.x"] ≡ₚ ["a.x"; "b.y"]) as Hp by apply perm_swap.
  split; [exact Hp|].
  exact (writePricing_Permutation "" ["b.y"; "a.x"] ["a.x"; "b.y"] "v" flat_price Hp).
Defined.

(** * Further properties of [writePricing] and [newline] *)

(** ** When [writePricing] returns, and what it leaves behind *)

Lemma writePricing_fatal_of_malformed (src0 : string) (names : list string) (varName : string)
    (getPrice : string -> float * error) :
  Exists (fun n => ~ well_formed n) names ->
  exists bad, writePricing src0 names varName getPrice
              = Fatal (parsing_message bad (Split bad DOT)).
Proof.
  intros Hex.
  assert (Exists (fun n => ~ well_formed n) (sort_Strings names)) as Hex'
    by (by rewrite sort_Strings_Permutation).
  destruct (first_malformed _ Hex') as (pre & bad & post & Hsort & Hpre & Hbad).
  exists bad. unfold writePricing. by rewrite Hsort, loop_fatal.
Qed.

Lemma returns_well_formed (src0 : string) (names : list string) (varName : string)
    (getPrice : string -> float * error) (w : written) :
  writePricing src0 names varName getPrice = Returns w -> Forall well_formed names.
Proof.
  intros Hw. destruct (decide (Forall well_formed names)) as [|Hn]; [done|].
  apply not_Forall_Exists in Hn; [|apply _].
  destruct (writePricing_fatal_of_malformed src0 names varName getPrice Hn) as [bad Hbad].
  by rewrite Hbad in Hw.
Qed.

(** The call comes back exactly when every name splits into two segments;
    the lookup has no say in it. *)
Theorem writePricing_returns_iff (src0 : string) (names : list string) (varName : string)
    (getPrice : string -> float * error) :
  (exists w, writePricing src0 names varName getPrice = Returns w) <->
  Forall well_formed names.
Proof.
  split.
  - intros [w Hw]. by eapply returns_well_formed.
  - intros Hwf. eexists. by apply writePricing_layout.
Qed.

(** What a returning call has done: the buffer is what it was, followed by
    the declaration line, a body and the closing text; nothing was printed
    on standard output; the caller's slice is sorted, with the same names. *)
Theorem writePricing_effects (src0 : string) (names : list string) (varName : string)
    (getPrice : string -> float * error) (w : written) :
  writePricing src0 names varName getPrice = Returns w ->
  (exists body,
     buffer w = src0 +:+ declaration_line varName +:+ str LF +:+ body +:+ closing_text) /\
  printed w = "" /\
  Sorted String.le (names_after w) /\
  names_after w ≡ₚ names.
Proof.
  intros Hw.
  assert (Forall well_formed names) as Hwf by (by eapply returns_well_formed).
  rewrite writePricing_layout in Hw by done. injection Hw as <-.
  cbn [buffer printed names_after]. split; [by eexists|]. split; [done|].
  split; [apply sort_Strings_Sorted|apply sort_Strings_Permutation].
Qed.

Lemma writePricing_effects_witness :
  writePricing "" ["b.y"; "a.x"] "v" flat_price
    = Returns (mkWritten
        ("" +:+ declaration_line "v" +:+ str LF +:+
         flatten (layout flat_price 0 "" ["a.x"; "b.y"]) +:+ closing_text) "" ["a.x"; "b.y"]) /\
  Sorted String.le ["a.x"; "b.y"] /\ ["a.x"; "b.y"] ≡ₚ ["b.y"; "a.x"].
Proof.
  assert (writePricing "" ["b.y"; "a.x"] "v" flat_price
    = Returns (mkWritten
        ("" +:+ declaration_line "v" +:+ str LF +:+
         flatten (layout flat_price 0 "" ["a.x"; "b.y"]) +:+ closing_text) "" ["a.x"; "b.y"]))
    as Hw by reflexivity.
  split; [exact Hw|].
  destruct (writePricing_effects _ _ _ _ _ Hw) as (_ & _ & Hs & Hp).
  split; [exact Hs|exact Hp].
Defined.

(** ** The entries and the prices *)

Lemma priced_names_fmap (getPrice : string -> float * error) (names : list string) :
  priced_names getPrice names =
    (fun n => (n, (getPrice n).1)) <$> filter (has_price getPrice) names.
Proof.
  induction names as [|n rest IH]; [done|].
  rewrite priced_names_cons. unfold has_price in *.
  destruct (getPrice n) as [p [e|]] eqn:Hp.
  - by rewrite filter_cons_False by (by rewrite Hp).
  - rewrite filter_cons_True by (by rewrite Hp). rewrite fmap_cons, Hp. by rewrite IH.
Qed.

(** On well-formed names, the entries written are the names with a price,
    in sorted order, each with the price its lookup returned: a name and a
    price form an entry exactly when the name is in the input and the lookup
    returns that price without an error. *)
Theorem entries_are_priced_names (src0 : string) (names : list string) (varName : string)
    (getPrice : string -> float * error) :
  Forall well_formed names ->
  let L := layout getPrice 0 "" (sort_Strings names) in
  writePricing src0 names varName getPrice =
    Returns (mkWritten (src0 +:+ declaration_line varName +:+ str LF +:+ flatten L +:+ closing_text)
                       "" (sort_Strings names)) /\
  entries L = (fun n => (n, (getPrice n).1)) <$> filter (has_price getPrice) (sort_Strings names) /\
  forall n p, (n, p) ∈ entries L <-> n ∈ names /\ getPrice n = (p, None).
Proof.
  intros Hwf L. split; [by apply writePricing_layout|].
  assert (entries L
          = (fun n => (n, (getPrice n).1)) <$> filter (has_price getPrice) (sort_Strings names))
    as HL by (unfold L; by rewrite entries_layout, priced_names_fmap).
  split; [done|]. intros n p. rewrite HL, list_elem_of_fmap. split.
  - intros (m & Heq & [Hp Hm]%list_elem_of_filter).
    injection Heq as -> ->.
    rewrite sort_Strings_elem_of in Hm. split; [exact Hm|].
    unfold has_price in Hp. destruct (getPrice m) as [pm em]; simpl in *. by subst.
  - intros [Hn Hp]. exists n. rewrite Hp. split; [done|].
    apply list_elem_of_filter. split; [unfold has_price; by rewrite Hp|].
    by apply sort_Strings_elem_of.
Qed.

Lemma entries_are_priced_names_witness :
  Forall well_formed ["b.y"; "a.x"] /\
  entries (layout all_but_b_y 0 "" (sort_Strings ["b.y"; "a.x"])) = [("a.x", 1%float)].
Proof.
  assert (Forall well_formed ["b.y"; "a.x"]) as Hwf by (repeat constructor).
  split; [exact Hwf|].
  destruct (entries_are_priced_names "" ["b.y"; "a.x"] "v" all_but_b_y Hwf) as (_ & HL & _).
  rewrite HL. reflexivity.
Defined.

(** ** A table without entries *)

Lemma layout_no_price (getPrice : string -> float * error) (names : list string) :
  forall l prev,
    Forall (fun n => ~ has_price getPrice n) names -> layout getPrice l prev names = [].
Proof.
  induction names as [|n rest IH]; intros l prev Hnp; [done|].
  apply Forall_cons in Hnp as [Hn Hrest]. simpl. unfold has_price in Hn.
  destruct (getPrice n) as [p [e|]]; [by apply IH|]. by destruct Hn.
Qed.

(** When no name has a price (or there is no name at all), the table is the
    declaration line, an empty line, the closing brace and an empty line. *)
Theorem no_price_empty_table (src0 : string) (names : list string) (varName : string)
    (getPrice : string -> float * error) :
  Forall well_formed names ->
  (forall n, n ∈ names -> ~ has_price getPrice n) ->
  writePricing src0 names varName getPrice =
    Returns (mkWritten
      (src0 +:+ declaration_line varName +:+ str LF +:+ str LF +:+ "}" +:+ str LF +:+ str LF)
      "" (sort_Strings names)).
Proof.
  intros Hwf Hnp. rewrite writePricing_layout by done.
  rewrite layout_no_price; [done|].
  apply Forall_forall. intros n Hn. by apply Hnp, sort_Strings_elem_of.
Qed.

Lemma no_price_empty_table_witness :
  Forall well_formed ["b.y"] /\
  writePricing "" ["b.y"] "v" all_but_b_y =
    Returns (mkWritten
      ("" +:+ declaration_line "v" +:+ str LF +:+ str LF +:+ "}" +:+ str LF +:+ str LF)
      "" (sort_Strings ["b.y"])).
Proof.
  assert (Forall well_formed ["b.y"]) as Hwf by (repeat constructor).
  split; [exact Hwf|].
  apply (no_price_empty_table "" ["b.y"] "v" all_but_b_y Hwf).
  intros n Hn. apply list_elem_of_singleton in Hn as ->. intros H. discriminate H.
Defined.

(** ** Family and size of a well-formed name *)

Lemma Split_segments_no_dot (s : string) : Forall (fun seg => dots seg = 0%nat) (Split s DOT).
Proof.
  induction s as [|c s IH]; [by repeat constructor|]. simpl.
  destruct (Ascii.eqb c DOT) eqn:E; [by constructor|].
  destruct (Split s DOT) as [|seg segs]; [repeat constructor; simpl; by rewrite E|].
  apply Forall_cons in IH as [Hseg Hsegs]. constructor; [|done]. simpl. by rewrite E.
Qed.

Lemma family_of_app (f t : string) :
  dots f = 0%nat -> family_of (f +:+ String DOT t) = f.
Proof.
  unfold family_of. induction f as [|c f IH]; intros Hf.
  - done.
  - rewrite sapp_cons. simpl in *. destruct (Ascii.eqb c DOT); [done|].
    specialize (IH Hf).
    destruct (Split_nonempty (f +:+ String DOT t) DOT) as (seg & segs & Hs).
    rewrite Hs in IH |- *. simpl in *. by rewrite IH.
Qed.

(** A name that passes the check of the loop is its family, a dot and a
    size, neither of which holds a dot; and a family and a size without dots,
    joined by a dot, pass the check and give back that family. *)
Theorem family_size_round_trip (n f size : string) :
  (well_formed n /\ Split n DOT = [f; size]) <->
  (n = f +:+ str DOT +:+ size /\ dots f = 0%nat /\ dots size = 0%nat).
Proof.
  split.
  - intros [Hwf Hs]. pose proof (Join_Split n DOT) as Hj. rewrite Hs in Hj.
    pose proof (Split_segments_no_dot n) as Hd. rewrite Hs in Hd.
    apply Forall_cons in Hd as [Hf Hd]. apply Forall_cons in Hd as [Hsz _].
    split; [by rewrite <- Hj|done].
  - intros (-> & Hf & Hsz).
    assert (forall g, dots g = 0%nat ->
              Split (g +:+ str DOT +:+ size) DOT = [g; size]) as Hsplit.
    { assert (Split size DOT = [size]) as Hsize.
      { clear Hf. induction size as [|c s IH]; [done|]. simpl in *.
        destruct (Ascii.eqb c DOT); [done|]. by rewrite IH. }
      intros g Hg. change (g +:+ str DOT +:+ size) with (g +:+ String DOT size).
      rewrite Split_app_sep, Hsize.
      assert (Split g DOT = [g]) as ->; [|done].
      clear Hsize. induction g as [|c s IH]; [done|]. simpl in *.
      destruct (Ascii.eqb c DOT); [done|]. by rewrite IH. }
    split; [|by apply Hsplit]. unfold well_formed. by rewrite Hsplit.
Qed.

Lemma well_formed_family (n : string) :
  well_formed n -> exists size, n = family_of n +:+ String DOT size /\ dots (family_of n) = 0%nat.
Proof.
  intros Hwf. unfold family_of.
  pose proof (Join_Split n DOT) as Hj. pose proof (Split_segments_no_dot n) as Hd.
  unfold well_formed in Hwf.
  destruct (Split n DOT) as [|f [|size [|]]]; try done.
  apply Forall_cons in Hd as [Hf _]. exists size. simpl. split; [|done]. by rewrite <- Hj.
Qed.

(** ** Byte order and common prefixes *)

Lemma le_cons_inv (c d : ascii) (s t : string) :
  String.le (String c s) (String d t) ->
  Ascii.compare c d = Lt \/ (c = d /\ String.le s t).
Proof.
  unfold String.le, String.leb. simpl.
  destruct (Ascii.compare c d) eqn:E; [|by left|done].
  apply Ascii.compare_eq_iff in E as ->. by right.
Qed.

Lemma le_prefix_sandwich (p a b m : string) :
  String.le (p +:+ a) m -> String.le m (p +:+ b) -> exists t, m = p +:+ t.
Proof.
  revert m. induction p as [|c p IH]; intros m H1 H2; [by exists m|].
  rewrite sapp_cons in H1, H2. destruct m as [|d m]; [done|].
  apply le_cons_inv in H1 as [H1|[-> H1]].
  - apply le_cons_inv in H2 as [H2|[-> _]].
    + rewrite Ascii.compare_antisym, H2 in H1. done.
    + unfold Ascii.compare in H1. by rewrite N.compare_refl in H1.
  - apply le_cons_inv in H2 as [H2|[_ H2]].
    + unfold Ascii.compare in H2. by rewrite N.compare_refl in H2.
    + destruct (IH m H1 H2) as [t ->]. by exists t.
Qed.

(** Between two names of one family, in byte order, there are only names
    of that family. *)
Lemma family_sandwich (n m n' : string) :
  well_formed n -> well_formed n' -> family_of n = family_of n' ->
  String.le n m -> String.le m n' -> family_of m = family_of n.
Proof.
  intros Hn Hn' Hf H1 H2.
  destruct (well_formed_family n Hn) as (sz & En & Hd).
  destruct (well_formed_family n' Hn') as (sz' & En' & _).
  rewrite <- Hf in En'. set (f := family_of n) in *.
  rewrite En in H1. rewrite En' in H2.
  change (f +:+ String DOT sz) with (f +:+ (str DOT +:+ sz)) in H1.
  change (f +:+ String DOT sz') with (f +:+ (str DOT +:+ sz')) in H2.
  rewrite <- sapp_assoc in H1, H2.
  destruct (le_prefix_sandwich _ _ _ _ H1 H2) as [t ->].
  rewrite sapp_assoc. by apply family_of_app.
Qed.

(** ** One comment line per family *)

Lemma runs_elem_of (l : list string) : forall prev x, x ∈ runs prev l -> x ∈ l.
Proof.
  induction l as [|f l IH]; intros prev x; simpl; [done|].
  case_bool_decide.
  - intros [->|Hx]%elem_of_cons; [left|right; by eapply IH].
  - intros Hx. right. by eapply IH.
Qed.

Lemma runs_complete (l : list string) : forall prev x, x ∈ l -> x <> prev -> x ∈ runs prev l.
Proof.
  induction l as [|f l IH]; intros prev x Hx Hne; [by apply elem_of_nil in Hx|]. simpl.
  destruct (decide (x = f)) as [->|Hxf].
  - rewrite bool_decide_eq_true_2 by done. left.
  - apply elem_of_cons in Hx as [->|Hx]; [done|].
    case_bool_decide; [right|]; by apply IH.
Qed.

Section Grouping.
Variable getPrice : string -> float * error.

(** The families of the names with a price, in the order of the list. *)
Let families (names : list string) : list string :=
  family_of <$> filter (has_price getPrice) names.

Lemma family_not_again (n : string) (names : list string) :
  well_formed n -> Forall well_formed names ->
  StronglySorted String.le (n :: names) ->
  family_of n ∉ runs (family_of n) (families names).
Proof.
  intros Hn. induction names as [|m rest IH]; intros Hwf Hs; [by intros ?%elem_of_nil|].
  apply Forall_cons in Hwf as [Hm Hrest].
  apply StronglySorted_inv in Hs as [Hs Hall].
  apply StronglySorted_inv in Hs as [Hs' Hall'].
  apply Forall_cons in Hall as [Hnm Hall].
  assert (StronglySorted String.le (n :: rest)) as Hs'' by (by constructor).
  unfold families. rewrite filter_cons. case_decide; [|by apply IH].
  rewrite fmap_cons. simpl. case_bool_decide as Hg.
  - intros [Heq|Hin]%elem_of_cons; [done|].
    apply runs_elem_of, list_elem_of_fmap in Hin as (n' & Hf & [_ Hn']%list_elem_of_filter).
    apply Hg. apply (family_sandwich n m n'); try done.
    + by apply (proj1 (Forall_forall _ _) Hrest).
    + by apply (proj1 (Forall_forall _ _) Hall').
  - rewrite Hg. by apply IH.
Qed.

Lemma runs_NoDup (names : list string) :
  Forall well_formed names -> StronglySorted String.le names ->
  forall prev, NoDup (runs prev (families names)).
Proof.
  induction names as [|m rest IH]; intros Hwf Hs prev; [constructor|].
  pose proof Hs as Hs0.
  apply Forall_cons in Hwf as [Hm Hrest]. apply StronglySorted_inv in Hs as [Hs _].
  unfold families. rewrite filter_cons. case_decide; [|by apply IH].
  rewrite fmap_cons. simpl.
  assert (NoDup (family_of m :: runs (family_of m) (families rest))) as Hnd.
  { constructor; [by apply family_not_again|by apply IH]. }
  case_bool_decide; [done|]. by apply NoDup_cons in Hnd as [_ ?].
Qed.
End Grouping.

(** On well-formed names, no family has two comment lines, every comment
    line is of the family of a name with a price, and every such family,
    if it is not empty, has its comment line. *)
Theorem one_comment_per_family (src0 : string) (names : list string) (varName : string)
    (getPrice : string -> float * error) :
  Forall well_formed names ->
  let L := layout getPrice 0 "" (sort_Strings names) in
  writePricing src0 names varName getPrice =
    Returns (mkWritten (src0 +:+ declaration_line varName +:+ str LF +:+ flatten L +:+ closing_text)
                       "" (sort_Strings names)) /\
  NoDup (comments L) /\
  (forall f, f ∈ comments L ->
     exists n, n ∈ names /\ has_price getPrice n /\ family_of n = f) /\
  (forall n, n ∈ names -> has_price getPrice n -> family_of n <> "" ->
     family_of n ∈ comments L).
Proof.
  intros Hwf L. split; [by apply writePricing_layout|].
  unfold L. rewrite comments_layout. split; [|split].
  - apply runs_NoDup; [by apply sort_Strings_Forall|apply sort_Strings_StronglySorted].
  - intros f Hf.
    apply runs_elem_of, list_elem_of_fmap in Hf as (n & -> & [Hp Hn]%list_elem_of_filter).
    exists n. by rewrite sort_Strings_elem_of in Hn.
  - intros n Hn Hp Hf. apply runs_complete; [|done].
    apply list_elem_of_fmap. exists n. split; [done|].
    apply list_elem_of_filter. split; [done|]. by apply sort_Strings_elem_of.
Qed.

Lemma one_comment_per_family_witness :
  Forall well_formed ["b.y"; "a.x"; "b.x"] /\
  NoDup (comments (layout flat_price 0 "" (sort_Strings ["b.y"; "a.x"; "b.x"]))).
Proof.
  assert (Forall well_formed ["b.y"; "a.x"; "b.x"]) as Hwf by (repeat constructor).
  split; [exact Hwf|].
  destruct (one_comment_per_family "" ["b.y"; "a.x"; "b.x"] "v" flat_price Hwf) as (_ & Hnd & _).
  exact Hnd.
Defined.

(** ** Every entry under the comment of its family *)

Lemma layout_entry_comment (getPrice : string -> float * error) (names : list string) :
  forall l prev l1 n p l2,
    layout getPrice l prev names = l1 ++ Entry n p :: l2 ->
    last (comments l1) = Some (family_of n) \/ (comments l1 = [] /\ family_of n = prev).
Proof.
  induction names as [|m rest IH]; intros l prev l1 n p l2 HL; simpl in HL.
  { by destruct l1. }
  destruct (getPrice m) as [pm [e|]] eqn:Hm; [by eapply IH|].
  (* the entries of the rest, after this entry and its line break *)
  assert (forall (c : bool) l' l1' ,
            (if c then Break :: layout getPrice 0 (family_of m) rest
             else layout getPrice l' (family_of m) rest) = l1' ++ Entry n p :: l2 ->
            last (comments l1') = Some (family_of n) \/
            (comments l1' = [] /\ family_of n = family_of m)) as Htail.
  { intros [] l' l1' Ht; [|by eapply IH].
    destruct l1' as [|c1 l1']; [done|]. injection Ht as <- Ht.
    change (comments (Break :: l1')) with (comments l1'). by eapply IH. }
  case_bool_decide as Hsw.
  - (* a new family: the heading ends with its comment *)
    assert (forall l1',
              Comment (family_of m) :: Entry m pm ::
                (if 80 <? 0 + width m pm then Break :: layout getPrice 0 (family_of m) rest
                 else layout getPrice (0 + width m pm) (family_of m) rest)
              = l1' ++ Entry n p :: l2 ->
              last (comments l1') = Some (family_of n)) as Hhead.
    { intros l1' Ht. destruct l1' as [|c1 l1']; [done|]. injection Ht as <- Ht.
      destruct l1' as [|c2 l1']; [injection Ht as <- <- _; reflexivity|].
      injection Ht as <- Ht. apply Htail in Ht.
      change (comments (Comment (family_of m) :: Entry m pm :: l1'))
        with (family_of m :: comments l1').
      rewrite last_cons. destruct Ht as [->|[-> Heq]]; [reflexivity|].
      simpl. by rewrite Heq. }
    left. destruct (l =? 0); simpl in HL.
    + by apply Hhead.
    + destruct l1 as [|c0 l1]; [done|]. injection HL as <- HL.
      change (comments (Sep :: l1)) with (comments l1). by apply Hhead.
  - simpl in HL. destruct l1 as [|c1 l1]; [injection HL as <- <- _; by right|].
    injection HL as <- HL. change (comments (Entry m pm :: l1)) with (comments l1).
    apply Htail in HL as [HL|[HL Heq]]; [by left|right].
    split; [done|]. by rewrite Heq.
Qed.

(** On well-formed names, the last comment line before an entry is the one
    of the entry's family; only entries of the empty family can stand
    before every comment line. *)
Theorem entry_under_own_comment (src0 : string) (names : list string) (varName : string)
    (getPrice : string -> float * error) :
  Forall well_formed names ->
  let L := layout getPrice 0 "" (sort_Strings names) in
  writePricing src0 names varName getPrice =
    Returns (mkWritten (src0 +:+ declaration_line varName +:+ str LF +:+ flatten L +:+ closing_text)
                       "" (sort_Strings names)) /\
  forall before n p after,
    L = before ++ Entry n p :: after ->
    last (comments before) = Some (family_of n) \/
    (comments before = [] /\ family_of n = "").
Proof.
  intros Hwf L. split; [by apply writePricing_layout|].
  intros before n p after HL. by eapply layout_entry_comment.
Qed.

Lemma entry_under_own_comment_witness :
  Forall well_formed ["b.y"; "a.x"] /\
  (last (comments [Comment "a"; Entry "a.x" 1%float; Sep; Comment "b"]) = Some (family_of "b.y") \/
   (comments [Comment "a"; Entry "a.x" 1%float; Sep; Comment "b"] = [] /\ family_of "b.y" = "")).
Proof.
  assert (Forall well_formed ["b.y"; "a.x"]) as Hwf by (repeat constructor).
  split; [exact Hwf|].
  destruct (entry_under_own_comment "" ["b.y"; "a.x"] "v" flat_price Hwf) as [_ H].
  apply (H [Comment "a"; Entry "a.x" 1%float; Sep; Comment "b"] "b.y" 1%float []).
  reflexivity.
Defined.

(** ** [newline] on any buffer *)

(** [newline] keeps what the buffer holds and adds at most one line feed; a
    non-empty buffer ends with a line feed afterwards and nothing is
    printed; an empty buffer stays empty, its line feed goes to standard
    output; a second call leaves the buffer as the first one did. *)
Theorem newline_behaviour (b : string) :
  ((newline b).1 = b \/ (newline b).1 = b +:+ str LF) /\
  (b <> "" -> last_byte (newline b).1 = Some LF /\ (newline b).2 = "") /\
  (b = "" -> newline b = ("", str LF)) /\
  (newline (newline b).1).1 = (newline b).1.
Proof.
  destruct (decide (b = "")) as [->|Hne]; [by repeat split; auto|].
  pose proof (newline_cases b) as Hb.
  rewrite (bool_decide_eq_false_2 (b = "")) in Hb by done.
  destruct (decide (last_byte b = Some LF)) as [Hl|Hl].
  - rewrite bool_decide_eq_true_2 in Hb by done. rewrite Hb. cbn [fst snd].
    rewrite Hb. cbn [fst snd]. repeat split; auto. by intros ->.
  - rewrite bool_decide_eq_false_2 in Hb by done. rewrite Hb. cbn [fst snd].
    assert (b +:+ str LF <> "") as Hne' by (by intros [_ ?]%sapp_eq_nil).
    rewrite newline_cases, (bool_decide_eq_false_2 (b +:+ str LF = "")) by done.
    rewrite bool_decide_eq_true_2 by apply last_byte_snoc.
    cbn [fst snd]. split; [by right|]. split; [|split; [by intros ->|done]].
    intros _. split; [apply last_byte_snoc|done].
Qed.

(** * Properties of [main] *)

(** ** The waiting loop *)

Lemma wait_spec (w : world) (fuel : nat) : forall k0 k,
  wait w fuel k0 = Some k <->
  (k0 <= k < k0 + fuel)%nat /\ ready w k = true /\
  forall j, (k0 <= j < k)%nat -> ready w j = false.
Proof.
  induction fuel as [|fuel IH]; intros k0 k; simpl.
  - split; [done|]. intros [? _]. lia.
  - destruct (ready w k0) eqn:E.
    + split.
      * intros [= <-]. split; [lia|]. split; [done|]. intros j ?. lia.
      * intros (Hk & Hr & Hbefore). f_equal.
        destruct (decide (k0 = k)) as [|Hne]; [done|].
        rewrite Hbefore in E by lia. done.
    + rewrite IH. split.
      * intros (Hk & Hr & Hbefore). split; [lia|]. split; [done|].
        intros j Hj. destruct (decide (j = k0)) as [->|]; [done|]. apply Hbefore. lia.
      * intros (Hk & Hr & Hbefore).
        assert (k0 <> k) by (intros ->; by rewrite Hr in E).
        split; [lia|]. split; [done|]. intros j Hj. apply Hbefore. lia.
Qed.



Lemma wait_never (w : world) (fuel : nat) :
  (forall k, ready w k = false) -> wait w fuel 0 = None.
Proof.
  intros Hn. destruct (wait w fuel 0) as [k|] eqn:E; [|done].
  apply wait_spec in E as (_ & Hr & _). by rewrite Hn in Hr.
Qed.


(** ** From the arguments to the output file *)

Lemma main_ready (w : world) (fuel k : nat) (path : string) :
  Args w = [path] -> Create w = None -> NewSession w = None -> wait w fuel 0 = Some k ->
  main w fuel =
    match writePricing (preamble (now w)) (sort_Strings (InstanceTypes w))
                       "initialOnDemandPrices" (OnDemandPrice w) with
    | Fatal msg => Some (mkRun (Exit 1) (replicate k waiting_line ++ [msg]) None false)
    | Returns wr =>
        match format_Source w (buffer wr) with
        | (_, Some err) =>
            Some (mkRun (Exit 1)
                    (replicate k waiting_line ++ ["formatting generated source, " +:+ err])
                    None false)
        | (formatted, None) =>
            match WriteFile w path formatted with
            | Some err =>
                Some (mkRun (Exit 1) (replicate k waiting_line ++ ["writing output, " +:+ err])
                        None false)
            | None =>
                match WriteHeapProfile w with
                | Some err =>
                    Some (mkRun (Exit 1)
                            (replicate k waiting_line ++
                             ["could not write memory profile: " +:+ err])
                            (Some (path, formatted)) false)
                | None =>
                    Some (mkRun Return (replicate k waiting_line) (Some (path, formatted)) true)
                end
            end
        end
    end.
Proof. intros HA HC HS HW. unfold main. by rewrite HA, HC, HS, HW. Qed.

Lemma writePricing_in_main (w : world) :
  Forall well_formed (InstanceTypes w) ->
  writePricing (preamble (now w)) (sort_Strings (InstanceTypes w))
               "initialOnDemandPrices" (OnDemandPrice w)
    = Returns (mkWritten (table_source w) "" (sort_Strings (InstanceTypes w))).
Proof.
  intros Hwf. rewrite writePricing_layout by (by apply sort_Strings_Forall).
  by rewrite sort_Strings_idempotent.
Qed.

Lemma writePricing_in_main_fatal (w : world) :
  ~ Forall well_formed (InstanceTypes w) ->
  exists msg,
    writePricing (preamble (now w)) (sort_Strings (InstanceTypes w))
                 "initialOnDemandPrices" (OnDemandPrice w) = Fatal msg.
Proof.
  intros Hn. apply not_Forall_Exists in Hn; [|apply _].
  assert (Exists (fun n => ~ well_formed n) (sort_Strings (InstanceTypes w))) as Hex
    by (by rewrite sort_Strings_Permutation).
  destruct (writePricing_fatal_of_malformed (preamble (now w)) _ "initialOnDemandPrices"
              (OnDemandPrice w) Hex) as [bad Hbad].
  eauto.
Qed.

(** The output file is written exactly when there is one argument, the
    profile file and the session were created, every instance type splits
    into two segments, the formatter accepts the generated text and the write
    succeeds; it is then named by the argument and holds the formatted text
    of the preamble followed by the table.  Whether the heap profile can be
    written plays no part. *)
Theorem main_output_iff (w : world) (fuel : nat) (r : run) (path text : string) :
  main w fuel = Some r ->
  (output r = Some (path, text) <->
   Args w = [path] /\ Create w = None /\ NewSession w = None /\
   Forall well_formed (InstanceTypes w) /\
   format_Source w (table_source w) = (text, None) /\
   WriteFile w path text = None).
Proof.
  intros Hr.
  destruct (Args w) as [|a [|a' rest]] eqn:HA.
  - unfold main in Hr. rewrite HA in Hr. injection Hr as <-.
    split; [done|]. by intros (? & _).
  - destruct (Create w) as [e|] eqn:HC.
    { unfold main in Hr. rewrite HA, HC in Hr. injection Hr as <-.
      split; [done|]. by intros (_ & ? & _). }
    destruct (NewSession w) as [e|] eqn:HS.
    { unfold main in Hr. rewrite HA, HC, HS in Hr. injection Hr as <-.
      split; [done|]. by intros (_ & _ & ? & _). }
    destruct (wait w fuel 0) as [k|] eqn:HW.
    2:{ unfold main in Hr. by rewrite HA, HC, HS, HW in Hr. }
    rewrite (main_ready w fuel k a HA HC HS HW) in Hr.
    destruct (decide (Forall well_formed (InstanceTypes w))) as [Hwf|Hwf].
    2:{ destruct (writePricing_in_main_fatal w Hwf) as [msg Hmsg]. rewrite Hmsg in Hr.
        injection Hr as <-. split; [done|]. by intros (_ & _ & _ & ? & _). }
    rewrite writePricing_in_main in Hr by done. cbn [buffer] in Hr.
    destruct (format_Source w (table_source w)) as [formatted [e|]] eqn:HF.
    { injection Hr as <-. split; [done|]. by intros (_ & _ & _ & _ & ? & _). }
    destruct (WriteFile w a formatted) as [e|] eqn:HWr.
    { injection Hr as <-. split; [done|].
      intros ([= <-] & _ & _ & _ & [= <-] & HWr'). by rewrite HWr in HWr'. }
    assert (output r = Some (a, formatted)) as ->
      by (destruct (WriteHeapProfile w); by injection Hr as <-).
    split.
    + intros [= <- <-]. by repeat split.
    + by intros ([= <-] & _ & _ & _ & [= <-] & _).
  - unfold main in Hr. rewrite HA in Hr. injection Hr as <-.
    split; [done|]. by intros (? & _).
Qed.

Lemma main_output_iff_witness :
  exists r text,
    main example_world 4 = Some r /\ output r = Some ("out.go", text) /\
    Forall well_formed (InstanceTypes example_world) /\
    format_Source example_world (table_source example_world) = (text, None).
Proof.
  assert (main example_world 4
          = Some (mkRun Return (replicate 3 waiting_line)
                    (Some ("out.go", table_source example_world)) true)) as Hr
    by reflexivity.
  eexists _, (table_source example_world). split; [exact Hr|]. split; [reflexivity|].
  destruct (proj1 (main_output_iff example_world 4 _ "out.go" (table_source example_world) Hr)
              eq_refl) as (_ & _ & _ & Hwf & Hf & _).
  split; [exact Hwf|exact Hf].
Defined.

(** ** How [main] ends *)

Set Warnings "-clear-no-such-hyp".



(** ** A malformed instance type *)

Lemma writePricing_fatal_least (src0 : string) (names : list string) (varName : string)
    (getPrice : string -> float * error) :
  Exists (fun n => ~ well_formed n) names ->
  exists bad,
    bad ∈ names /\ ~ well_formed bad /\
    writePricing src0 names varName getPrice = Fatal (parsing_message bad (Split bad DOT)).
Proof.
  intros Hex.
  assert (Exists (fun n => ~ well_formed n) (sort_Strings names)) as Hex'
    by (by rewrite sort_Strings_Permutation).
  destruct (first_malformed _ Hex') as (pre & bad & post & Hsort & Hpre & Hbad).
  exists bad. split; [|split; [done|]].
  - apply sort_Strings_elem_of. rewrite Hsort. apply elem_of_app. right. left.
  - unfold writePricing. by rewrite Hsort, loop_fatal.
Qed.

(** When the provider hands out an instance type that does not split into
    two segments, [main], once the wait is over, exits with status 1: the
    last message names such a type, and neither the formatter's result nor
    the output file nor the heap profile is written. *)
Theorem main_malformed_type (w : world) (fuel k : nat) (path : string) :
  Args w = [path] -> Create w = None -> NewSession w = None ->
  wait w fuel 0 = Some k ->
  Exists (fun n => ~ well_formed n) (InstanceTypes w) ->
  exists bad,
    bad ∈ InstanceTypes w /\ ~ well_formed bad /\
    main w fuel =
      Some (mkRun (Exit 1)
              (replicate k waiting_line ++ [parsing_message bad (Split bad DOT)])
              None false).
Proof.
  intros HA HC HS HW Hex.
  assert (Exists (fun n => ~ well_formed n) (sort_Strings (InstanceTypes w))) as Hex'
    by (by rewrite sort_Strings_Permutation).
  destruct (writePricing_fatal_least (preamble (now w)) _ "initialOnDemandPrices"
              (OnDemandPrice w) Hex') as (bad & Hin & Hbad & Hrun).
  rewrite sort_Strings_elem_of in Hin.
  exists bad. split; [done|]. split; [done|].
  by rewrite (main_ready w fuel k path HA HC HS HW), Hrun.
Qed.

Lemma main_malformed_type_witness :
  (wait malformed_world 4 0 = Some 3%nat /\
   Exists (fun n => ~ well_formed n) (InstanceTypes malformed_world)) /\
  main malformed_world 4 =
    Some (mkRun (Exit 1)
            (replicate 3 waiting_line ++ ["parsing instance family c5, got [c5]"])
            None false).
Proof.
  assert (wait malformed_world 4 0 = Some 3%nat) as HW by reflexivity.
  assert (Exists (fun n => ~ well_formed n) (InstanceTypes malformed_world)) as Hex
    by (apply Exists_cons_tl, Exists_cons_hd; discriminate).
  split; [exact (conj HW Hex)|].
  destruct (main_malformed_type malformed_world 4 3 "out.go" eq_refl eq_refl eq_refl HW Hex)
    as (bad & Hin & Hbad & Hrun).
  rewrite Hrun. clear Hrun.
  apply elem_of_cons in Hin as [->|Hin]; [by destruct Hbad|].
  apply elem_of_cons in Hin as [->|Hin]; [reflexivity|].
  apply list_elem_of_singleton in Hin as ->. by destruct Hbad.
Defined.

(** ** Whether [main] ends *)

